(** * A shallow embedding of [monitor.py] (hassio-pylontech)

    Python [bytes] and [str] values are both modelled as [list ascii]:
    a [bytes] object is its list of 8-bit values, a [str] is its list of
    code points (the code only handles ASCII/Latin-1 text).  Commands are
    ASCII, so [len(command)] equals the length of [command.encode()]. *)

From Stdlib Require Import Ascii String List ZArith Bool Lia.
Import ListNotations.
Open Scope list_scope.

(* ------------------------------------------------------------------ *)
(** ** Byte strings and the helpers of Python's [bytes]/[str] used by the code *)

Definition bytes := list ascii.
Definition text := list ascii.

Definition str (s : String.string) : list ascii := String.list_ascii_of_string s.

Definition CR : ascii := ascii_of_nat 13.
Definition LF : ascii := ascii_of_nat 10.

(** [MARK_PROMPT = b"\rpylon>"] *)
Definition MARK_PROMPT : bytes := CR :: str "pylon>"%string.
(** [MARK_BEGIN = b"\n\r@\r\r\n"] *)
Definition MARK_BEGIN : bytes := [LF; CR; "@"%char; CR; CR; LF].
(** [MARK_END = b"\r\n\rCommand completed successfully\r\n\r$$\r\n" + MARK_PROMPT] *)
Definition MARK_END : bytes :=
  [CR; LF; CR] ++ str "Command completed successfully"%string ++ [CR; LF; CR]
  ++ str "$$"%string ++ [CR; LF] ++ MARK_PROMPT.

Fixpoint startswith (s p : list ascii) {struct p} : bool :=
  match p, s with
  | [], _ => true
  | c :: p', c' :: s' => Ascii.eqb c c' && startswith s' p'
  | _ :: _, [] => false
  end.

Definition endswith (s p : list ascii) : bool := startswith (rev s) (rev p).

(** [p in s] for [bytes]. *)
Fixpoint contains (p s : list ascii) : bool :=
  startswith s p || match s with [] => false | _ :: s' => contains p s' end.

(** Whitespace of [bytes.rstrip()]: [b" \t\n\r\x0b\x0c"]. *)
Definition is_bytes_space (c : ascii) : bool :=
  let n := nat_of_ascii c in (n =? 32)%nat || ((9 <=? n)%nat && (n <=? 13)%nat).

(** Whitespace of [str.strip()] on Latin-1 code points. *)
Definition is_str_space (c : ascii) : bool :=
  let n := nat_of_ascii c in
  is_bytes_space c || ((28 <=? n)%nat && (n <=? 31)%nat) || (n =? 133)%nat
  || (n =? 160)%nat.

Fixpoint lstrip_with (sp : ascii -> bool) (s : list ascii) : list ascii :=
  match s with
  | [] => []
  | c :: s' => if sp c then lstrip_with sp s' else s
  end.

Definition rstrip_with (sp : ascii -> bool) (s : list ascii) : list ascii :=
  rev (lstrip_with sp (rev s)).

(** [bytes.rstrip()] *)
Definition rstrip (s : bytes) : bytes := rstrip_with is_bytes_space s.

(** [s[i:j]] for non-negative [i], [j]. *)
Definition slice {A} (s : list A) (i j : nat) : list A := firstn (j - i) (skipn i s).

(* ------------------------------------------------------------------ *)
(** ** The command engine: [network_command] and [serial_command] *)

(** The two functions differ only in how they talk to the device. *)
Inductive kind := Network | Serial.

(** Outcome of one read of the read loop.
    - [RdTimeout]: [socket.timeout] (network) or [select] not ready (serial);
    - [RdData b]: [sock.recv(256)] or [os.read(file, 256)] returned [b];
    - [RdError]: the read raised another exception. *)
Inductive read_ev := RdTimeout | RdData (b : bytes) | RdError.

Inductive error :=
| ConnectError                 (** "Error connecting to device" / "Error opening device" *)
| WriteError                   (** [select] not writable ("Write operation timed out") or the write raised *)
| ReadTimeout                  (** "Read operation timed out" *)
| ReadError                    (** a read raised *)
| FrameCorrupt                 (** "Response frame corrupt" *)
| DecodeError                  (** [response.decode()] raised *)
| CommandFailed (command : bytes) (context : error).
  (** [RuntimeError(f"Error sending command {command}")], raised inside the
      [except] clause, so the caught exception is its [__context__]. *)

(** Result of a call.  [OutOfFuel] marks a read loop that has not finished
    within the given number of iterations (the Python loop keeps running). *)
Inductive result := Ok (s : text) | Err (e : error) | OutOfFuel.

(** One invocation of [network_command]/[serial_command], with its arguments. *)
Record call := Call { c_command : bytes; c_retries : nat; c_checkframe : bool }.

Inductive loop_out := LOk (response : bytes) | LTimeout | LError | LFuel.

Section Engine.

(** The device, seen through the operations the code performs on it. *)
Variable Dev : Type.
(** [socket.connect] / [os.open]; [None] when it raises. *)
Variable dev_open : Dev -> option Dev.
(** [sock.sendall] / [select] for writing then [os.write]; [None] on failure. *)
Variable dev_write : Dev -> bytes -> option Dev.
Variable dev_read : Dev -> read_ev * Dev.
(** [sock.close()] / [os.close(file)] in the [finally] clause. *)
Variable dev_close : Dev -> Dev.
(** [bytes.decode()]: [None] when the bytes are not valid text. *)
Variable decode : bytes -> option text.

(** The [while mark_end not in response] loop; [fuel] bounds its iterations. *)
Fixpoint read_loop (fuel : nat) (k : kind) (mark_end response : bytes)
    (timeout_counter : nat) (d : Dev) : loop_out * Dev :=
  match fuel with
  | O => (LFuel, d)
  | S f =>
    if contains mark_end response then (LOk response, d)
    else if (5 <? timeout_counter)%nat then (LTimeout, d)
    else
      match dev_read d with
      | (RdTimeout, d') => read_loop f k mark_end response (S timeout_counter) d'
      | (RdError, d') => (LError, d')
      | (RdData data, d') =>
        match k, data with
        | Network, [] =>
          (* if not data: timeout_counter += 1; continue *)
          read_loop f k mark_end response (S timeout_counter) d'
        | _, _ => read_loop f k mark_end (response ++ data) timeout_counter d'
        end
      end
  end.

Definition decode_result (b : bytes) : result :=
  match decode b with Some t => Ok t | None => Err DecodeError end.

(** After the loop: [rstrip], frame check, slicing and decoding. *)
Definition finish (command : bytes) (checkframe : bool) (mark_end response : bytes)
    : result :=
  let response := rstrip response in
  if checkframe then
    if startswith response (command ++ MARK_BEGIN) && endswith response mark_end
    then decode_result
           (slice response (length command + length MARK_BEGIN)
                  (length response - length mark_end))
    else Err FrameCorrupt
  else decode_result response.

(** The body of the outer [try]: one attempt, closing the device in [finally]. *)
Definition attempt (fuel : nat) (k : kind) (d : Dev) (command : bytes)
    (checkframe : bool) : result * Dev :=
  let mark_end := if checkframe then MARK_END else MARK_PROMPT in
  match dev_open d with
  | None => (Err ConnectError, d)
  | Some d0 =>
    match dev_write d0 (command ++ [LF]) with
    | None => (Err WriteError, dev_close d0)
    | Some d1 =>
      match read_loop fuel k mark_end [] 0 d1 with
      | (LOk response, d2) => (finish command checkframe mark_end response, dev_close d2)
      | (LTimeout, d2) => (Err ReadTimeout, dev_close d2)
      | (LError, d2) => (Err ReadError, dev_close d2)
      | (LFuel, d2) => (OutOfFuel, d2)
      end
    end
  end.

(** [network_command(device, command, retries=0, checkframe=...)]. *)
Definition command_once (fuel : nat) (k : kind) (d : Dev) (command : bytes)
    (checkframe : bool) : result * Dev * list call :=
  let here := [Call command 0 checkframe] in
  match attempt fuel k d command checkframe with
  | (Err e, d1) => (Err (CommandFailed command e), d1, here)
  | (r, d1) => (r, d1, here)
  end.

(** [network_command(device, command, retries=retries, checkframe=checkframe)];
    the list records every invocation, the recursive ones included. *)
Fixpoint send_command (fuel : nat) (k : kind) (d : Dev) (command : bytes)
    (retries : nat) (checkframe : bool) : result * Dev * list call :=
  match retries with
  | O => command_once fuel k d command checkframe
  | S n =>
    let here := Call command retries checkframe in
    match attempt fuel k d command checkframe with
    | (Err _, d1) =>
      (* network_command(device, "", retries=0, checkframe=False); errors ignored *)
      match command_once fuel k d1 [] false with
      | (OutOfFuel, d2, tprobe) => (OutOfFuel, d2, here :: tprobe)
      | (_, d2, tprobe) =>
        (* return network_command(device, command, retries=retries-1) *)
        match send_command fuel k d2 command n true with
        | (r, d3, tretry) => (r, d3, here :: tprobe ++ tretry)
        end
      end
    | (r, d1) => (r, d1, [here])
    end
  end.

Definition network_command fuel := send_command fuel Network.
Definition serial_command fuel := send_command fuel Serial.

End Engine.

Arguments read_loop {Dev} dev_read fuel k mark_end response timeout_counter d.
Arguments attempt {Dev} dev_open dev_write dev_read dev_close decode fuel k d command checkframe.
Arguments command_once {Dev} dev_open dev_write dev_read dev_close decode fuel k d command checkframe.
Arguments send_command {Dev} dev_open dev_write dev_read dev_close decode fuel k d command retries checkframe.
Arguments network_command {Dev} dev_open dev_write dev_read dev_close decode fuel.
Arguments serial_command {Dev} dev_open dev_write dev_read dev_close decode fuel.

(* ------------------------------------------------------------------ *)
(** ** The table parser of [get_power] *)

Local Notation "'let?' x ':=' e 'in' f" :=
  (match e with Some x => f | None => None end)
  (at level 200, x name, e at level 100, f at level 200).

(** [str.strip()] and [str.rstrip()] *)
Definition strip (s : text) : text :=
  rstrip_with is_str_space (lstrip_with is_str_space s).
Definition rstrip_str (s : text) : text := rstrip_with is_str_space s.

(** [response.split("\n")] *)
Fixpoint split_lf (s : text) : list text :=
  match s with
  | [] => [[]]
  | c :: s' =>
    let ls := split_lf s' in
    if Ascii.eqb c LF then [] :: ls
    else match ls with l :: r => (c :: l) :: r | [] => [[c]] end
  end.

(** [re.findall(r"([^ ]+ +)", s)]: a match is a maximal run of non-spaces
    followed by its (non-empty) maximal run of spaces.  [acc] holds the
    current candidate match reversed, [in_spaces] whether it has reached its
    spaces. *)
Fixpoint findall_aux (s acc : text) (in_spaces : bool) : list text :=
  match s with
  | [] => if in_spaces then [rev acc] else []
  | c :: s' =>
    if Ascii.eqb c " "%char then
      match acc with
      | [] => findall_aux s' [] false
      | _ => findall_aux s' (c :: acc) true
      end
    else if in_spaces then rev acc :: findall_aux s' [c] false
    else findall_aux s' (c :: acc) false
  end.

Definition findall_cols (s : text) : list text := findall_aux s [] false.

(** [colstart = [0]; for m in re.findall(...): colstart.append(colstart[-1] + len(m))] *)
Definition colstart_of (header : text) : list nat :=
  fold_left (fun cs m => cs ++ [last cs 0 + length m]) (findall_cols (rstrip_str header)) [0].

(** [s[i]] with Python's negative indices; [None] is an [IndexError]. *)
Definition py_index (s : text) (i : Z) : option ascii :=
  let n := Z.of_nat (length s) in
  let j := if (i <? 0)%Z then (i + n)%Z else i in
  if (j <? 0)%Z || (n <=? j)%Z then None else nth_error s (Z.to_nat j).

(** [s[i:j]] with Python's negative indices and clamping. *)
Definition py_slice (s : text) (i j : Z) : text :=
  let n := Z.of_nat (length s) in
  let norm x := if (x <? 0)%Z then Z.max 0 (x + n) else Z.min x n in
  slice s (Z.to_nat (norm i)) (Z.to_nat (norm j)).

(** [getcell(line, cellno)]; [None] when it raises. *)
Definition getcell (colstart : list nat) (line : text) (cellno : nat) : option text :=
  let linelen := Z.of_nat (length line) in
  let? c := nth_error colstart cellno in
  let offset1 := Z.min linelen (Z.of_nat c) in
  let? offset1 :=
    (if (offset1 =? 0)%Z then Some offset1
     else let? ch := py_index line (offset1 - 1) in
          Some (if Ascii.eqb ch " "%char then offset1 else (offset1 - 1)%Z)) in
  let? next :=
    (if (S cellno <? length colstart)%nat
     then let? c' := nth_error colstart (S cellno) in Some (Z.of_nat c')
     else Some linelen) in
  let offset2 := Z.min linelen next in
  let? ch := py_index line (offset2 - 1) in
  let offset2 := if Ascii.eqb ch " "%char then offset2 else (offset2 - 1)%Z in
  Some (strip (py_slice line offset1 offset2)).

(** [[f(x) for x in xs]], raising if one [f(x)] raises. *)
Fixpoint map_opt {A B} (f : A -> option B) (xs : list A) : option (list B) :=
  match xs with
  | [] => Some []
  | x :: xs' => let? y := f x in let? ys := map_opt f xs' in Some (y :: ys)
  end.

(** Values of a record: the cells are [str], some are coerced to [int]. *)
Inductive value := VStr (s : text) | VInt (z : Z).

Definition text_eqb (a b : text) : bool :=
  if list_eq_dec ascii_dec a b then true else false.

Definition value_eqb (a b : value) : bool :=
  match a, b with
  | VStr s, VStr t => text_eqb s t
  | VInt x, VInt y => Z.eqb x y
  | _, _ => false
  end.

(** A Python [dict] with [str] keys, in insertion order. *)
Definition item := list (text * value).

Fixpoint dict_get (d : item) (k : text) : option value :=
  match d with
  | [] => None
  | (k', v) :: d' => if text_eqb k k' then Some v else dict_get d' k
  end.

(** [d[k] = v]: an existing key keeps its place, a new one goes last. *)
Fixpoint dict_set (d : item) (k : text) (v : value) : item :=
  match d with
  | [] => [(k, v)]
  | (k', v') :: d' => if text_eqb k k' then (k', v) :: d' else (k', v') :: dict_set d' k v
  end.

(** [dict(zip(headers, values))] *)
Definition dict_of_zip (ks : list text) (vs : list value) : item :=
  fold_left (fun d kv => dict_set d (fst kv) (snd kv)) (combine ks vs) [].

(** [int(s)] on a [str], base 10; [None] is a [ValueError]. *)
Definition is_digit (c : ascii) : bool :=
  let n := nat_of_ascii c in ((48 <=? n) && (n <=? 57))%nat.

Fixpoint digits_val (s : text) (acc : Z) (prev_digit : bool) : option Z :=
  match s with
  | [] => if prev_digit then Some acc else None
  | c :: s' =>
    if is_digit c then digits_val s' (acc * 10 + Z.of_nat (nat_of_ascii c - 48))%Z true
    else if Ascii.eqb c "_"%char && prev_digit then digits_val s' acc false
    else None
  end.

Definition py_int (s : text) : option Z :=
  match strip s with
  | [] => None
  | c :: r =>
    if Ascii.eqb c "-"%char then option_map Z.opp (digits_val r 0 false)
    else if Ascii.eqb c "+"%char then digits_val r 0 false
    else digits_val (c :: r) 0 false
  end.

Definition BASE_ST : text := str "Base.St".
Definition ABSENT : text := str "Absent".
Definition COULOMB : text := str "Coulomb".
Definition NUMERIC_KEYS : list text :=
  map str ["Power"; "Volt"; "Curr"; "Tempr"; "Tlow"; "Thigh"; "Vlow"; "Vhigh";
           "MosTempr"]%string.

(** [try: item[k] = int(item[k]) except Exception: pass] *)
Definition coerce_int (it : item) (k : text) : item :=
  match dict_get it k with
  | Some (VStr s) => match py_int s with Some z => dict_set it k (VInt z) | None => it end
  | Some (VInt z) => dict_set it k (VInt z)
  | None => it
  end.

(** [try: item["Coulomb"] = int(item["Coulomb"][:-1]) except Exception: pass] *)
Definition coerce_coulomb (it : item) : item :=
  match dict_get it COULOMB with
  | Some (VStr s) =>
    match py_int (py_slice s 0 (-1)) with
    | Some z => dict_set it COULOMB (VInt z)
    | None => it
    end
  | _ => it
  end.

Definition coerce_item (it : item) : item :=
  coerce_coulomb (fold_left coerce_int NUMERIC_KEYS it).

(** [values = [getcell(line, i) for i in range(len(colstart))]; item = dict(zip(headers, values))] *)
Definition row_item (colstart : list nat) (headers : list text) (line : text) : option item :=
  let? values := map_opt (getcell colstart line) (seq 0 (length colstart)) in
  Some (dict_of_zip headers (map VStr values)).

(** The [for line in lines[1:]] loop. *)
Fixpoint process_rows (colstart : list nat) (headers : list text) (rows : list text)
    : option (list item) :=
  match rows with
  | [] => Some []
  | line :: rest =>
    let? it := row_item colstart headers line in
    let? st := dict_get it BASE_ST in
    if value_eqb st (VStr ABSENT) then process_rows colstart headers rest
    else let? items := process_rows colstart headers rest in Some (coerce_item it :: items)
  end.

Inductive parse_result := Parsed (items : list item) | ParseError (response : text).

(** The parsing part of [get_power]: any exception becomes
    [RuntimeError(f"Error parsing power ({response})")]. *)
Definition parse_power (response : text) : parse_result :=
  let lines := split_lf response in
  match (let? header := hd_error lines in
         let colstart := colstart_of header in
         let? headers := map_opt (getcell colstart header) (seq 0 (length colstart)) in
         process_rows colstart headers (tl lines)) with
  | Some items => Parsed items
  | None => ParseError response
  end.

(* ------------------------------------------------------------------ *)
(** ** Concrete devices used to run the model *)

(** A device replaying a script of read outcomes; connecting and writing
    always succeed, and once the script is exhausted every read times out. *)
Definition script_open (d : list read_ev) : option (list read_ev) := Some d.
Definition script_write (d : list read_ev) (_ : bytes) : option (list read_ev) := Some d.
Definition script_read (d : list read_ev) : read_ev * list read_ev :=
  match d with [] => (RdTimeout, []) | r :: d' => (r, d') end.
Definition script_close (d : list read_ev) : list read_ev := d.

(** [bytes.decode()] on ASCII input (the only input the runs below use). *)
Definition decode_ascii (b : bytes) : option text :=
  if forallb (fun c => (nat_of_ascii c <? 128)%nat) b then Some b else None.

Definition run_script (k : kind) (script : list read_ev) (command : bytes)
    (retries : nat) (checkframe : bool) : result * list read_ev * list call :=
  send_command script_open script_write script_read script_close decode_ascii
    100 k script command retries checkframe.

Definition res {D} (x : result * D * list call) : result := fst (fst x).
Definition trace {D} (x : result * D * list call) : list call := snd x.

(** A device on which connecting always fails. *)
Definition refuse_open (_ : unit) : option unit := None.
Definition unit_write (d : unit) (_ : bytes) : option unit := Some d.
Definition unit_close (d : unit) : unit := d.

(** A serial device that is always readable but whose reads return no bytes. *)
Definition empty_read (d : unit) : read_ev * unit := (RdData [], d).
Definition unit_open (d : unit) : option unit := Some d.

(** The sequence of reads delivering the chunks [cs], each non-empty. *)
Inductive delivers {D} (rd : D -> read_ev * D) : D -> list bytes -> D -> Prop :=
| delivers_nil d : delivers rd d [] d
| delivers_cons d c cs d1 d' :
    rd d = (RdData c, d1) -> c <> [] -> delivers rd d1 cs d' -> delivers rd d (c :: cs) d'.

Definition PWR : bytes := str "pwr".

(** A payload that itself contains the terminator, delivered in two reads. *)
Definition C1_bad_payload : bytes := str "a" ++ MARK_END ++ str "b".
Definition C1_bad_chunks : list bytes :=
  [PWR ++ MARK_BEGIN ++ str "a" ++ MARK_END; str "b" ++ MARK_END].
Definition C1_good_chunks : list bytes :=
  [PWR ++ MARK_BEGIN; str "ok" ++ MARK_END].

(** An unframed exchange: the first attempt times out, the probe gets a
    bare prompt, then the device answers [pwr] without the frame banners. *)
Definition C4_retry_part : list read_ev :=
  [RdData (PWR ++ [CR; LF] ++ str "x" ++ MARK_PROMPT)].
Definition C4_script : list read_ev :=
  repeat RdTimeout 6 ++ [RdData MARK_PROMPT] ++ C4_retry_part.

(** Reads that interleave data with six idle reads before the rest of
    the framed answer to [pwr] (empty payload). *)
Definition C9_rest : bytes := MARK_END.
Definition C9_script : list read_ev :=
  [RdTimeout; RdData (PWR ++ MARK_BEGIN); RdData []; RdTimeout; RdData [];
   RdTimeout; RdData []; RdData C9_rest].

(** A framed answer that does not echo the command. *)
Definition C6_script : list read_ev := [RdData (str "xyz" ++ MARK_END)].

(** A first attempt that times out, a probe answered by a bare prompt,
    then the framed answer ["ok"] to [pwr]. *)
Definition C7_script : list read_ev :=
  repeat RdTimeout 6 ++ [RdData MARK_PROMPT; RdData (PWR ++ MARK_BEGIN ++ str "ok" ++ MARK_END)].

(** The table of the end-to-end scenario: header and one row, no
    trailing spaces. *)
Definition C2_payload : text :=
  str "Base.St Power Volt" ++ [LF] ++ str "Normal  120   480".

(** A table whose Coulomb cell is bare digits. *)
Definition C3_payload : text :=
  str "Base.St Coulomb " ++ [LF] ++ str "Normal  4500   ".

(** A table with an empty line after the header. *)
Definition C10_payload : text :=
  str "Base.St Power " ++ [LF] ++ [] ++ [LF] ++ str "Normal  120 ".

(** Whether the status cell of a record is ["Absent"]. *)
Definition is_absent (it : item) : bool :=
  match dict_get it BASE_ST with
  | Some v => value_eqb v (VStr ABSENT)
  | None => false
  end.

(** A table with an ["Absent"] row and a ["Normal"] row. *)
Definition C8_payload : text :=
  str "Base.St Power " ++ [LF] ++ str "Absent  1 " ++ [LF] ++ str "Normal  120 ".

(* ------------------------------------------------------------------ *)
(** ** [get_power] and helpers used to state further properties *)

Inductive power_result := Power (r : parse_result) | PowerFailed (e : error) | PowerOutOfFuel.

(** [get_power(device, network)]: [network_command(device, "pwr")] or
    [serial_command(device, "pwr")] with their defaults ([retries=1],
    [checkframe=True]), then the parser; an exception of the command
    propagates before the parser's [try]. *)
Definition get_power {D} op wr rd cl dec fuel (network : bool) (d : D) : power_result * D :=
  match send_command op wr rd cl dec fuel (if network then Network else Serial) d PWR 1 true with
  | (Ok response, d', _) => (Power (parse_power response), d')
  | (Err e, d', _) => (PowerFailed e, d')
  | (OutOfFuel, d', _) => (PowerOutOfFuel, d')
  end.

(** ["\n".join(lines)] *)
Fixpoint join_lf (ls : list text) : text :=
  match ls with
  | [] => []
  | [l] => l
  | l :: ls' => l ++ LF :: join_lf ls'
  end.




(** The calls made by [send_command] when every attempt fails: the first
    call, then a probe and a framed retry for each remaining retry. *)
Fixpoint failing_trace (command : bytes) (n : nat) : list call :=
  match n with
  | O => []
  | S m => Call [] 0 false :: Call command m true :: failing_trace command m
  end.

(** Running sums [x, x + len(m1), x + len(m1) + len(m2), ...]. *)
Fixpoint psums (x : nat) (ms : list text) : list nat :=
  match ms with
  | [] => [x]
  | m :: ms' => x :: psums (x + length m) ms'
  end.

(* ================================================================== *)
(** * Properties *)

(** ** Byte-string lemmas *)

Lemma startswith_spec (s p : list ascii) :
  startswith s p = true <-> exists v, s = p ++ v.
Proof.
  revert s; induction p as [|c p IH]; intros s; simpl.
  - split; [intros _; exists s; reflexivity | intros _; reflexivity].
  - destruct s as [|c' s'].
    + split; [discriminate | intros [v Hv]; discriminate].
    + rewrite andb_true_iff, Ascii.eqb_eq, IH. split.
      * intros [-> [v ->]]. eauto.
      * intros [v Hv]. injection Hv as -> ->. eauto.
Qed.

Lemma startswith_app (p v : list ascii) : startswith (p ++ v) p = true.
Proof. apply startswith_spec. eauto. Qed.

Lemma contains_spec (p s : list ascii) :
  contains p s = true <-> exists u v, s = u ++ p ++ v.
Proof.
  induction s as [|c s IH]; simpl.
  - rewrite orb_false_r, startswith_spec. split.
    + intros [v Hv]. exists [], v. exact Hv.
    + intros [u [v Hv]]. destruct u; [eauto | discriminate].
  - rewrite orb_true_iff, startswith_spec, IH. split.
    + intros [[v Hv] | [u [v Hv]]].
      * exists [], v. exact Hv.
      * exists (c :: u), v. rewrite Hv. reflexivity.
    + intros [u [v Hv]]. destruct u as [|c' u].
      * left. eauto.
      * right. injection Hv as -> Hv. eauto.
Qed.

Lemma MARK_END_split :
  exists e', MARK_END = e' ++ [">"%char] /\ ~ In ">"%char e'.
Proof.
  exists ([CR; LF; CR] ++ str "Command completed successfully" ++ [CR; LF; CR]
          ++ str "$$" ++ [CR; LF] ++ CR :: str "pylon").
  split; [vm_compute; reflexivity|].
  cbv. intuition discriminate.
Qed.

(** The terminator ends with [">"], which occurs nowhere else in it, so
    it cannot first appear in a strict prefix of [a ++ MARK_END] unless it
    already appears in [a]. *)
Lemma contains_end_strict_prefix (a u w : bytes) :
  contains MARK_END a = false -> u ++ w = a ++ MARK_END -> w <> [] ->
  contains MARK_END u = false.
Proof.
  intros Ha Huw Hw.
  destruct (contains MARK_END u) eqn:Hu; [|reflexivity]. exfalso.
  apply contains_spec in Hu as [x [v ->]].
  rewrite <- !app_assoc in Huw.
  change (x ++ MARK_END ++ v ++ w = a ++ MARK_END) in Huw.
  rewrite app_assoc in Huw.
  apply app_eq_app in Huw as [l [[Hxl Hl] | [Hal Hl]]].
  - destruct MARK_END_split as [e' [He Hgt]].
    destruct l as [|c l].
    + rewrite app_nil_r in Hxl.
      assert (contains MARK_END a = true) as Hc
        by (apply contains_spec; exists x, []; rewrite app_nil_r; symmetry; exact Hxl).
      congruence.
    + destruct (exists_last (l := c :: l)) as [l' [g Hlast]]; [discriminate|].
      rewrite Hlast in Hxl, Hl. rewrite He in Hxl.
      rewrite !app_assoc in Hxl. apply app_inj_tail in Hxl as [_ <-].
      destruct (exists_last (l := v ++ w)) as [y [z Hvw]].
      { destruct v; [exact Hw | discriminate]. }
      rewrite Hvw, He in Hl.
      replace ((l' ++ [">"%char]) ++ y ++ [z]) with ((l' ++ ">"%char :: y) ++ [z]) in Hl
        by (rewrite <- !app_assoc; reflexivity).
      apply app_inj_tail in Hl as [He' _].
      apply Hgt. rewrite He'. apply in_or_app. right. left. reflexivity.
  - assert (contains MARK_END a = true) as Hc
      by (apply contains_spec; exists x, l; rewrite Hal, <- app_assoc; reflexivity).
    congruence.
Qed.

Lemma contains_app_end (a : bytes) : contains MARK_END (a ++ MARK_END) = true.
Proof. apply contains_spec. exists a, []. rewrite app_nil_r. reflexivity. Qed.

Lemma rstrip_end (x : bytes) : rstrip (x ++ MARK_END) = x ++ MARK_END.
Proof.
  destruct MARK_END_split as [e' [He _]].
  rewrite He, app_assoc. unfold rstrip, rstrip_with.
  rewrite rev_unit. simpl. rewrite rev_involutive. reflexivity.
Qed.

Lemma slice_middle {A} (a b c : list A) :
  slice (a ++ b ++ c) (length a) (length a + length b) = b.
Proof.
  unfold slice. replace (length a + length b - length a) with (length b) by lia.
  rewrite skipn_app, skipn_all, Nat.sub_diag. simpl.
  rewrite firstn_app, firstn_all, Nat.sub_diag. simpl. apply app_nil_r.
Qed.

(** ** The command engine *)

Section EngineFacts.

Variable Dev : Type.
Variable dev_open : Dev -> option Dev.
Variable dev_write : Dev -> bytes -> option Dev.
Variable dev_read : Dev -> read_ev * Dev.
Variable dev_close : Dev -> Dev.
Variable decode : bytes -> option text.

(** Reads delivering the chunks [cs] end the loop exactly when the
    terminator first appears, i.e. after the last chunk. *)
Lemma read_loop_delivers k m d cs d' :
  delivers dev_read d cs d' ->
  forall pre c fuel,
  (c <= 5)%nat -> length cs < fuel ->
  contains m (pre ++ concat cs) = true ->
  (forall u w, u ++ w = concat cs -> w <> [] -> contains m (pre ++ u) = false) ->
  read_loop dev_read fuel k m pre c d = (LOk (pre ++ concat cs), d').
Proof.
  induction 1 as [d | d c0 cs d1 d' Hrd Hc0 Hdel IH];
    intros pre c fuel Hc Hf Hin Hpre.
  - destruct fuel as [|f]; [simpl in Hf; lia|]. simpl in *.
    rewrite app_nil_r in *. rewrite Hin. reflexivity.
  - destruct fuel as [|f]; [simpl in Hf; lia|].
    assert (contains m pre = false) as H0.
    { rewrite <- (app_nil_r pre). apply (Hpre [] (c0 ++ concat cs)); [reflexivity|].
      destruct c0; [contradiction | discriminate]. }
    simpl. rewrite H0.
    replace (5 <? c)%nat with false by (symmetry; apply Nat.ltb_ge; lia).
    rewrite Hrd.
    assert (read_loop dev_read f k m (pre ++ c0) c d1 = (LOk ((pre ++ c0) ++ concat cs), d'))
      as Hrec.
    { apply IH; [lia | simpl in Hf; lia | |].
      - rewrite <- app_assoc. exact Hin.
      - intros u w Huw Hw. rewrite <- app_assoc. apply (Hpre (c0 ++ u) w); [|exact Hw].
        simpl. rewrite <- app_assoc, Huw. reflexivity. }
    destruct c0 as [|x c0']; [contradiction|].
    destruct k; rewrite Hrec; simpl; rewrite <- app_assoc; reflexivity.
Qed.

Lemma finish_framed command payload :
  finish decode command true MARK_END (command ++ MARK_BEGIN ++ payload ++ MARK_END)
  = decode_result decode payload.
Proof.
  unfold finish.
  replace (command ++ MARK_BEGIN ++ payload ++ MARK_END)
    with ((command ++ MARK_BEGIN ++ payload) ++ MARK_END) by (rewrite <- !app_assoc; reflexivity).
  rewrite rstrip_end.
  replace ((command ++ MARK_BEGIN ++ payload) ++ MARK_END)
    with ((command ++ MARK_BEGIN) ++ payload ++ MARK_END) by (rewrite <- !app_assoc; reflexivity).
  rewrite startswith_app. unfold endswith.
  replace ((command ++ MARK_BEGIN) ++ payload ++ MARK_END)
    with (((command ++ MARK_BEGIN) ++ payload) ++ MARK_END) at 1
    by (rewrite <- !app_assoc; reflexivity).
  rewrite rev_app_distr, startswith_app. simpl.
  replace (length ((command ++ MARK_BEGIN) ++ payload ++ MARK_END) - 47)
    with (length (command ++ MARK_BEGIN) + length payload)
    by (rewrite !length_app; simpl; lia).
  replace (length command + 6) with (length (command ++ MARK_BEGIN))
    by (rewrite length_app; reflexivity).
  rewrite slice_middle. reflexivity.
Qed.


Lemma attempt_framed fuel k d d0 d1 d2 command payload cs :
  dev_open d = Some d0 ->
  dev_write d0 (command ++ [LF]) = Some d1 ->
  delivers dev_read d1 cs d2 ->
  concat cs = command ++ MARK_BEGIN ++ payload ++ MARK_END ->
  contains MARK_END (command ++ MARK_BEGIN ++ payload) = false ->
  length cs < fuel ->
  attempt dev_open dev_write dev_read dev_close decode fuel k d command true
  = (decode_result decode payload, dev_close d2).
Proof.
  intros Ho Hw Hdel Hcat Hno Hf. unfold attempt. rewrite Ho, Hw.
  rewrite (read_loop_delivers k MARK_END d1 cs d2 Hdel [] 0 fuel); [| lia | exact Hf | |].
  - rewrite app_nil_l, Hcat, finish_framed. reflexivity.
  - simpl. rewrite Hcat, app_assoc, app_assoc. apply contains_app_end.
  - intros u w Huw Hnil. simpl.
    apply (contains_end_strict_prefix (command ++ MARK_BEGIN ++ payload) u w Hno); [|exact Hnil].
    rewrite Huw, Hcat, <- !app_assoc. reflexivity.
Qed.

Lemma command_once_trace fuel k d command checkframe :
  trace (command_once dev_open dev_write dev_read dev_close decode fuel k d command checkframe)
  = [Call command 0 checkframe].
Proof.
  unfold command_once, trace.
  destruct (attempt _ _ _ _ _ _ _ _ _ _) as [[s|e|] d1]; reflexivity.
Qed.

(** C1 (amended).  If the terminator [MARK_END] does not occur in
    [command + MARK_BEGIN + payload], and the device answers the command
    with exactly [command + MARK_BEGIN + payload + MARK_END], cut into any
    non-empty reads, then the framed call returns the payload decoded to
    text, whatever its retry budget and transport. *)
Theorem framed_call_returns_payload fuel k d d0 d1 d2 command payload t cs retries :
  dev_open d = Some d0 ->
  dev_write d0 (command ++ [LF]) = Some d1 ->
  delivers dev_read d1 cs d2 ->
  concat cs = command ++ MARK_BEGIN ++ payload ++ MARK_END ->
  contains MARK_END (command ++ MARK_BEGIN ++ payload) = false ->
  decode payload = Some t ->
  length cs < fuel ->
  res (send_command dev_open dev_write dev_read dev_close decode fuel k d command retries true)
  = Ok t.
Proof.
  intros Ho Hw Hdel Hcat Hno Hdec Hf.
  pose proof (attempt_framed fuel k d d0 d1 d2 command payload cs Ho Hw Hdel Hcat Hno Hf) as Ha.
  unfold decode_result in Ha. rewrite Hdec in Ha.
  destruct retries as [|n]; cbn [send_command]; [unfold command_once|]; rewrite Ha; reflexivity.
Qed.

(** C6.  A framed call with no retry left whose read loop stops on a
    buffer that, once [rstrip]ped, does not start with
    [command + MARK_BEGIN] or does not end with [MARK_END] fails with
    [CommandFailed command], raised over the [FrameCorrupt] error. *)
Theorem framed_corrupt_response_fails fuel k d d0 d1 d2 command response :
  dev_open d = Some d0 ->
  dev_write d0 (command ++ [LF]) = Some d1 ->
  read_loop dev_read fuel k MARK_END [] 0 d1 = (LOk response, d2) ->
  startswith (rstrip response) (command ++ MARK_BEGIN)
    && endswith (rstrip response) MARK_END = false ->
  res (send_command dev_open dev_write dev_read dev_close decode fuel k d command 0 true)
  = Err (CommandFailed command FrameCorrupt).
Proof.
  intros Ho Hw Hr Hbad. cbn [send_command]. unfold command_once, attempt.
  rewrite Ho, Hw. cbv beta iota zeta. rewrite Hr.
  unfold finish. cbv beta iota zeta. rewrite Hbad. reflexivity.
Qed.

(** C7.  With one retry: when the first attempt fails and the retry
    succeeds, the call returns the retry's payload, and exactly one
    recovery probe (empty command, unframed, no retry) is made in between,
    whatever its own outcome (provided it finishes). *)
Theorem one_retry_after_failure fuel k d command checkframe e d1 t d3 :
  attempt dev_open dev_write dev_read dev_close decode fuel k d command checkframe
  = (Err e, d1) ->
  res (command_once dev_open dev_write dev_read dev_close decode fuel k d1 [] false)
  <> OutOfFuel ->
  attempt dev_open dev_write dev_read dev_close decode fuel k
    (snd (fst (command_once dev_open dev_write dev_read dev_close decode fuel k d1 [] false)))
    command true = (Ok t, d3) ->
  send_command dev_open dev_write dev_read dev_close decode fuel k d command 1 checkframe
  = (Ok t, d3, [Call command 1 checkframe; Call [] 0 false; Call command 0 true]).
Proof.
  intros Hfirst Hprobe Hretry.
  pose proof (command_once_trace fuel k d1 [] false) as Htr.
  cbn [send_command]. rewrite Hfirst.
  destruct (command_once dev_open dev_write dev_read dev_close decode fuel k d1 [] false)
    as [[rp d2] tp] eqn:Hp.
  unfold res, trace in *. simpl in Hprobe, Hretry, Htr. subst tp.
  assert (Hr : command_once dev_open dev_write dev_read dev_close decode fuel k d2 command true
               = (Ok t, d3, [Call command 0 true])).
  { unfold command_once. rewrite Hretry. reflexivity. }
  destruct rp as [s|e'|]; [| | contradiction]; rewrite Hr; reflexivity.
Qed.

End EngineFacts.

(** Witness of C1: the answer to [pwr] arriving in two reads. *)
Lemma framed_call_returns_payload_witness :
  res (run_script Network (map RdData C1_good_chunks) PWR 1 true) = Ok (str "ok").
Proof.
  apply (framed_call_returns_payload (list read_ev) script_open script_write script_read
           script_close decode_ascii 100 Network (map RdData C1_good_chunks)
           (map RdData C1_good_chunks) (map RdData C1_good_chunks) []
           PWR (str "ok") (str "ok") C1_good_chunks 1);
    [reflexivity | reflexivity | | vm_compute; reflexivity | vm_compute; reflexivity
    | vm_compute; reflexivity | simpl; lia].
  econstructor; [reflexivity | discriminate |].
  econstructor; [reflexivity | discriminate |].
  constructor.
Defined.

(** C1 counterexample: a payload containing the terminator, delivered as
    exactly [pwr + MARK_BEGIN + payload + MARK_END] in two reads of at most
    256 bytes; the call returns only the part before the inner terminator. *)
Lemma framed_call_payload_with_terminator :
  concat C1_bad_chunks = PWR ++ MARK_BEGIN ++ C1_bad_payload ++ MARK_END /\
  decode_ascii C1_bad_payload = Some C1_bad_payload /\
  Forall (fun c => length c <= 256) C1_bad_chunks /\
  res (run_script Network (map RdData C1_bad_chunks) PWR 1 true) = Ok (str "a") /\
  res (run_script Network (map RdData C1_bad_chunks) PWR 1 true) <> Ok C1_bad_payload.
Proof.
  split; [vm_compute; reflexivity|].
  split; [vm_compute; reflexivity|].
  split; [repeat constructor; simpl; lia|].
  split; [vm_compute; reflexivity|].
  vm_compute. intro H. injection H as H. discriminate H.
Qed.

(** ** Retries re-run the command framed *)

Lemma send_command_trace_head {D} op wr rd cl dec fuel k (d : D) command retries checkframe :
  exists rest,
    trace (send_command op wr rd cl dec fuel k d command retries checkframe)
    = Call command retries checkframe :: rest.
Proof.
  destruct retries as [|n].
  - exists []. apply (command_once_trace D).
  - cbn [send_command]. unfold trace.
    destruct (attempt op wr rd cl dec fuel k d command checkframe) as [[s|e|] d1];
      [eexists; reflexivity | | eexists; reflexivity].
    destruct (command_once op wr rd cl dec fuel k d1 [] false) as [[rp d2] tp].
    destruct rp; [| | eexists; reflexivity];
      destruct (send_command op wr rd cl dec fuel k d2 command n true) as [[r d3] tr];
      eexists; reflexivity.
Qed.

(** C4 (code bug).  After a failed first attempt and the recovery probe,
    the retry is invoked with [checkframe] back at its default [True],
    whatever the [checkframe] of the original call. *)
Theorem retry_reexecutes_framed {D} op wr rd cl dec fuel k (d : D) command n checkframe e d1 :
  attempt op wr rd cl dec fuel k d command checkframe = (Err e, d1) ->
  res (command_once op wr rd cl dec fuel k d1 [] false) <> OutOfFuel ->
  exists rest,
    trace (send_command op wr rd cl dec fuel k d command (S n) checkframe)
    = Call command (S n) checkframe :: Call [] 0 false :: Call command n true :: rest.
Proof.
  intros Hfirst Hprobe.
  pose proof (command_once_trace D op wr rd cl dec fuel k d1 [] false) as Htr.
  cbn [send_command]. rewrite Hfirst.
  destruct (command_once op wr rd cl dec fuel k d1 [] false) as [[rp d2] tp] eqn:Hp.
  unfold res, trace in *. simpl in Hprobe, Htr. subst tp.
  destruct (send_command_trace_head op wr rd cl dec fuel k d2 command n true) as [rest Hrest].
  unfold trace in Hrest.
  destruct (send_command op wr rd cl dec fuel k d2 command n true) as [[r d3] tr].
  simpl in Hrest. subst tr.
  destruct rp; [| | contradiction]; exists rest; reflexivity.
Qed.

(** Witness of C4: on [C4_script] an unframed [pwr] with one retry fails,
    because its retry waits for the framed terminator; run unframed, the
    same answer is accepted. *)
Lemma retry_reexecutes_framed_witness :
  (exists rest,
    trace (run_script Network C4_script PWR 1 false)
    = Call PWR 1 false :: Call [] 0 false :: Call PWR 0 true :: rest) /\
  res (run_script Network C4_script PWR 1 false) = Err (CommandFailed PWR ReadTimeout) /\
  res (run_script Network C4_retry_part PWR 0 false)
  = Ok (PWR ++ [CR; LF] ++ str "x" ++ MARK_PROMPT).
Proof.
  split; [|split; vm_compute; reflexivity].
  apply (retry_reexecutes_framed script_open script_write script_read script_close
           decode_ascii 100 Network C4_script PWR 0 false ReadTimeout
           ([RdData MARK_PROMPT] ++ C4_retry_part));
    vm_compute; [reflexivity | discriminate].
Defined.

(** ** Idle reads *)

(** On a serial device that is always readable but returns no bytes, the
    read loop never ends. *)
Lemma serial_empty_reads_loop fuel m c :
  contains m [] = false -> (c <= 5)%nat ->
  read_loop empty_read fuel Serial m [] c tt = (LFuel, tt).
Proof.
  intros Hm Hc. induction fuel as [|f IH]; [reflexivity|].
  cbn [read_loop]. rewrite Hm.
  replace (5 <? c)%nat with false by (symmetry; apply Nat.ltb_ge; lia).
  cbn [empty_read app]. exact IH.
Qed.

(** C5 (code bug).  With no retry left, [network_command] on a device
    whose reads return no bytes fails with [CommandFailed] over the read
    timeout, but [serial_command] on the same device never returns: its
    zero-byte reads do not count as idle reads. *)
Theorem serial_zero_byte_reads_never_time_out :
  res (network_command unit_open unit_write empty_read unit_close decode_ascii 100 tt PWR 0 true)
  = Err (CommandFailed PWR ReadTimeout) /\
  forall fuel,
    res (serial_command unit_open unit_write empty_read unit_close decode_ascii fuel tt PWR 0 true)
    = OutOfFuel.
Proof.
  split; [vm_compute; reflexivity|].
  intros fuel. unfold serial_command. cbn [send_command]. unfold command_once, attempt.
  unfold unit_open, unit_write. cbv beta iota zeta.
  rewrite serial_empty_reads_loop; [reflexivity | vm_compute; reflexivity | lia].
Qed.

(** C9 (code bug).  On [C9_script] (three timeouts and three empty reads
    interleaved with data), [network_command] raises its timeout right
    after the sixth idle read, the counter not being reset by the data in
    between; [serial_command] does not count the empty reads and returns
    the framed answer. *)
Theorem serial_idle_count_skips_empty_reads :
  run_script Network C9_script PWR 0 true
  = (Err (CommandFailed PWR ReadTimeout), [RdData C9_rest], [Call PWR 0 true]) /\
  res (run_script Serial C9_script PWR 0 true) = Ok [].
Proof. split; vm_compute; reflexivity. Qed.

(** Witness of C6. *)
Lemma framed_corrupt_response_fails_witness :
  res (run_script Serial C6_script PWR 0 true) = Err (CommandFailed PWR FrameCorrupt).
Proof.
  apply (framed_corrupt_response_fails (list read_ev) script_open script_write script_read
           script_close decode_ascii 100 Serial C6_script C6_script C6_script []
           PWR (str "xyz" ++ MARK_END)); vm_compute; reflexivity.
Defined.

(** Witness of C7. *)
Lemma one_retry_after_failure_witness :
  run_script Network C7_script PWR 1 true
  = (Ok (str "ok"), [], [Call PWR 1 true; Call [] 0 false; Call PWR 0 true]).
Proof.
  apply (one_retry_after_failure (list read_ev) script_open script_write script_read
           script_close decode_ascii 100 Network C7_script PWR true ReadTimeout
           (skipn 6 C7_script) (str "ok") []); vm_compute; [reflexivity | discriminate | reflexivity].
Defined.

(** ** The table parser *)

Lemma text_eqb_spec (a b : text) : text_eqb a b = true <-> a = b.
Proof. unfold text_eqb. destruct (list_eq_dec ascii_dec a b); split; congruence. Qed.

Lemma text_eqb_refl (a : text) : text_eqb a a = true.
Proof. apply text_eqb_spec. reflexivity. Qed.

Lemma dict_get_set (d : item) k v k' :
  dict_get (dict_set d k v) k' = if text_eqb k' k then Some v else dict_get d k'.
Proof.
  induction d as [|[k0 v0] d IH]; simpl.
  - destruct (text_eqb k' k); reflexivity.
  - destruct (text_eqb k k0) eqn:Hk.
    + apply text_eqb_spec in Hk. subst k0. simpl.
      destruct (text_eqb k' k); reflexivity.
    + simpl. rewrite IH.
      destruct (text_eqb k' k0) eqn:H1; destruct (text_eqb k' k) eqn:H2; try reflexivity.
      apply text_eqb_spec in H1, H2. subst. rewrite text_eqb_refl in Hk. discriminate.
Qed.

Lemma coerce_int_other it k k' :
  text_eqb k' k = false -> dict_get (coerce_int it k) k' = dict_get it k'.
Proof.
  intros Hk. unfold coerce_int.
  destruct (dict_get it k) as [[s|z]|]; [destruct (py_int s)| |];
    rewrite ?dict_get_set, ?Hk; reflexivity.
Qed.

Lemma fold_coerce_int_other keys it k' :
  forallb (fun k => negb (text_eqb k' k)) keys = true ->
  dict_get (fold_left coerce_int keys it) k' = dict_get it k'.
Proof.
  revert it. induction keys as [|k keys IH]; intros it Hks; [reflexivity|].
  simpl in Hks. apply andb_true_iff in Hks as [Hk Hks]. simpl.
  rewrite IH by exact Hks. apply coerce_int_other. destruct (text_eqb k' k); easy.
Qed.

Lemma coerce_item_base_st it : dict_get (coerce_item it) BASE_ST = dict_get it BASE_ST.
Proof.
  unfold coerce_item, coerce_coulomb.
  destruct (dict_get (fold_left coerce_int NUMERIC_KEYS it) COULOMB) as [[s|z]|];
    [destruct (py_int (py_slice s 0 (-1)))| |];
    rewrite ?dict_get_set; (replace (text_eqb BASE_ST COULOMB) with false by reflexivity);
    apply fold_coerce_int_other; reflexivity.
Qed.

Lemma dict_fold_get kvs (d : item) k v :
  dict_get (fold_left (fun d kv => dict_set d (fst kv) (snd kv)) kvs d) k = Some v ->
  dict_get d k = Some v \/ In v (map snd kvs).
Proof.
  revert d. induction kvs as [|[k1 v1] kvs IH]; intros d H; simpl in *; [auto|].
  apply IH in H as [H|H]; [|auto].
  rewrite dict_get_set in H. destruct (text_eqb k k1); [injection H as ->; auto | auto].
Qed.

Lemma row_item_strings cs hs line it k v :
  row_item cs hs line = Some it -> dict_get it k = Some v -> exists s, v = VStr s.
Proof.
  unfold row_item. destruct (map_opt _ _) as [values|]; [|discriminate].
  intros Hit Hget. injection Hit as <-.
  apply dict_fold_get in Hget as [Hget|Hin]; [discriminate|].
  apply in_map_iff in Hin as [[k1 v1] [Hv Hin]]. simpl in Hv. subst v1.
  apply in_combine_r, in_map_iff in Hin as [s [Hs _]]. eauto.
Qed.

Lemma process_rows_spec cs hs rows items :
  process_rows cs hs rows = Some items ->
  exists raws,
    map_opt (row_item cs hs) rows = Some raws /\
    Forall (fun it => exists line, row_item cs hs line = Some it
                                   /\ exists v, dict_get it BASE_ST = Some v) raws /\
    items = map coerce_item (filter (fun it => negb (is_absent it)) raws).
Proof.
  revert items. induction rows as [|line rows IH]; intros items H; simpl in H.
  - injection H as <-. exists []. repeat split; constructor.
  - destruct (row_item cs hs line) as [it|] eqn:Hrow; [|discriminate].
    destruct (dict_get it BASE_ST) as [st|] eqn:Hst; [|discriminate].
    destruct (value_eqb st (VStr ABSENT)) eqn:Hab.
    + apply IH in H as [raws [Hm [Hf ->]]].
      assert (Ha : is_absent it = true) by (unfold is_absent; rewrite Hst, Hab; reflexivity).
      exists (it :: raws). split; [cbn [map_opt]; rewrite Hrow, Hm; reflexivity|].
      split; [constructor; eauto|]. cbn [filter]. rewrite Ha. reflexivity.
    + destruct (process_rows cs hs rows) as [items'|] eqn:Hrest; [|discriminate].
      injection H as <-. destruct (IH items' eq_refl) as [raws [Hm [Hf ->]]].
      assert (Ha : is_absent it = false) by (unfold is_absent; rewrite Hst, Hab; reflexivity).
      exists (it :: raws). split; [cbn [map_opt]; rewrite Hrow, Hm; reflexivity|].
      split; [constructor; eauto|]. cbn [filter]. rewrite Ha. reflexivity.
Qed.

Lemma py_index_nil i : py_index [] i = None.
Proof.
  unfold py_index. simpl.
  destruct (i <? 0)%Z eqn:H1;
    [ replace ((i + 0 <? 0)%Z) with true by (symmetry; apply Z.ltb_lt; lia)
    | replace ((0 <=? i)%Z) with true by (symmetry; apply Z.leb_le; apply Z.ltb_ge in H1; lia);
      rewrite orb_true_r ];
    reflexivity.
Qed.

(** [getcell] on an empty line raises: it reads [line[offset2-1]]. *)
Lemma getcell_nil cs n : getcell cs [] n = None.
Proof.
  unfold getcell. destruct (nth_error cs n) as [c|]; [|reflexivity].
  cbv zeta. rewrite !py_index_nil.
  destruct (Z.min _ _ =? 0)%Z; [|reflexivity].
  destruct (S n <? length cs)%nat; [destruct (nth_error cs (S n)); [|reflexivity]|];
    rewrite py_index_nil; reflexivity.
Qed.

Lemma colstart_of_length header : exists m, length (colstart_of header) = S m.
Proof.
  unfold colstart_of.
  assert (forall l (cs : list nat),
             length (fold_left (fun cs (m : text) => cs ++ [last cs 0 + length m]) l cs)
             = length cs + length l) as Hlen.
  { induction l as [|x l IH]; intros cs; simpl; [lia|].
    rewrite IH, length_app. simpl. lia. }
  rewrite Hlen. simpl. eauto.
Qed.

Lemma process_rows_empty_line cs hs rows :
  (exists m, length cs = S m) -> In [] rows -> process_rows cs hs rows = None.
Proof.
  intros [m Hm]. induction rows as [|line rows IH]; intros Hin; [destruct Hin|].
  assert (Hnil : row_item cs hs [] = None).
  { unfold row_item. rewrite Hm. cbn [seq map_opt]. rewrite getcell_nil. reflexivity. }
  destruct Hin as [->|Hin].
  - cbn [process_rows]. rewrite Hnil. reflexivity.
  - cbn [process_rows]. destruct (row_item cs hs line) as [it|]; [|reflexivity].
    destruct (dict_get it BASE_ST) as [st|]; [|reflexivity].
    rewrite (IH Hin). destruct (value_eqb st (VStr ABSENT)); reflexivity.
Qed.

(** C2 (code bug).  On the end-to-end scenario the last column loses its
    last character: [getcell] moves the right boundary one to the left
    whenever the character before it is not a space, also when that
    boundary is the end of the line.  The header cell reads ["Vol"] and the
    value ["48"], which is not coerced. *)
Theorem end_to_end_scenario_last_column :
  parse_power C2_payload
  = Parsed [[(BASE_ST, VStr (str "Normal")); (str "Power", VInt 120);
             (str "Vol", VStr (str "48"))]].
Proof. vm_compute. reflexivity. Qed.

(** C3 counterexample: a Coulomb cell of bare digits ["4500"] is not kept
    as text; its last digit is dropped and it becomes [450]. *)
Lemma coulomb_bare_digits_coerced :
  parse_power C3_payload = Parsed [[(BASE_ST, VStr (str "Normal")); (COULOMB, VInt 450)]] /\
  parse_power C3_payload
  <> Parsed [[(BASE_ST, VStr (str "Normal")); (COULOMB, VStr (str "4500"))]].
Proof.
  split; [vm_compute; reflexivity|].
  vm_compute. intro H. discriminate H.
Qed.

(** C3 (amended).  The Coulomb cell [s] of a record is replaced by
    [int(s[:-1])], whatever its last character is; only when that raises
    is the text [s] kept. *)
Theorem coulomb_coercion it s :
  dict_get it COULOMB = Some (VStr s) ->
  dict_get (coerce_item it) COULOMB
  = Some (match py_int (py_slice s 0 (-1)) with Some z => VInt z | None => VStr s end).
Proof.
  intros Hs. unfold coerce_item, coerce_coulomb.
  rewrite fold_coerce_int_other by reflexivity. rewrite Hs.
  destruct (py_int (py_slice s 0 (-1))) as [z|].
  - rewrite dict_get_set, text_eqb_refl. reflexivity.
  - rewrite fold_coerce_int_other by reflexivity. exact Hs.
Qed.

(** Witness of C3: ["4500C"] becomes [4500]. *)
Lemma coulomb_coercion_witness :
  dict_get (coerce_item [(COULOMB, VStr (str "4500C"))]) COULOMB = Some (VInt 4500).
Proof.
  rewrite (coulomb_coercion [(COULOMB, VStr (str "4500C"))] (str "4500C")) by reflexivity.
  vm_compute. reflexivity.
Defined.

(** C8.  When the table parses, the records are exactly the coerced
    records of the data rows whose status is not ["Absent"], in order:
    every such row appears, and every record has a text status other than
    ["Absent"]. *)
Theorem parsed_records_exclude_absent response items :
  parse_power response = Parsed items ->
  let header := hd [] (split_lf response) in
  let colstart := colstart_of header in
  exists headers raws,
    map_opt (getcell colstart header) (seq 0 (length colstart)) = Some headers /\
    map_opt (row_item colstart headers) (tl (split_lf response)) = Some raws /\
    items = map coerce_item (filter (fun it => negb (is_absent it)) raws) /\
    (forall it, In it raws -> is_absent it = false -> In (coerce_item it) items) /\
    Forall (fun it => exists s, dict_get it BASE_ST = Some (VStr s) /\ s <> ABSENT) items.
Proof.
  unfold parse_power. intros H. cbv zeta.
  destruct (split_lf response) as [|header rows]; [discriminate|]. cbn [hd_error hd tl] in *.
  destruct (map_opt _ (seq 0 (length (colstart_of header)))) as [hs|] eqn:Hhs;
    [|discriminate].
  destruct (process_rows (colstart_of header) hs rows) as [items'|] eqn:Hp; [|discriminate].
  injection H as <-.
  destruct (process_rows_spec _ _ _ _ Hp) as [raws [Hm [Hf ->]]].
  exists hs, raws. repeat split; [exact Hm | |].
  - intros it Hin Hab. apply in_map. apply filter_In. rewrite Hab. auto.
  - apply Forall_forall. intros it' Hin.
    apply in_map_iff in Hin as [it [<- Hin]]. apply filter_In in Hin as [Hin Hab].
    rewrite Forall_forall in Hf. destruct (Hf it Hin) as [line [Hrow [v Hv]]].
    destruct (row_item_strings _ _ _ _ _ _ Hrow Hv) as [s ->].
    exists s. rewrite coerce_item_base_st. split; [exact Hv|].
    intros ->. unfold is_absent in Hab. rewrite Hv in Hab. cbn [value_eqb] in Hab.
    rewrite text_eqb_refl in Hab. discriminate.
Qed.

Lemma parsed_records_exclude_absent_witness :
  let header := hd [] (split_lf C8_payload) in
  let colstart := colstart_of header in
  exists headers raws,
    map_opt (getcell colstart header) (seq 0 (length colstart)) = Some headers /\
    map_opt (row_item colstart headers) (tl (split_lf C8_payload)) = Some raws /\
    [[(BASE_ST, VStr (str "Normal")); (str "Power", VInt 120)]]
    = map coerce_item (filter (fun it => negb (is_absent it)) raws) /\
    (forall it, In it raws -> is_absent it = false ->
       In (coerce_item it) [[(BASE_ST, VStr (str "Normal")); (str "Power", VInt 120)]]) /\
    Forall (fun it => exists s, dict_get it BASE_ST = Some (VStr s) /\ s <> ABSENT)
      [[(BASE_ST, VStr (str "Normal")); (str "Power", VInt 120)]].
Proof.
  apply (parsed_records_exclude_absent C8_payload).
  vm_compute. reflexivity.
Defined.

(** C10.  A table with an empty line after the header fails to parse:
    the error carries the response text, no record is emitted. *)
Theorem empty_data_line_fails response :
  In [] (tl (split_lf response)) -> parse_power response = ParseError response.
Proof.
  intros Hin. unfold parse_power.
  destruct (split_lf response) as [|header rows]; [destruct Hin|]. cbn [hd_error tl] in *.
  destruct (map_opt _ _) as [hs|]; [|reflexivity].
  rewrite process_rows_empty_line; [reflexivity | apply colstart_of_length | exact Hin].
Qed.

(** Witness of C10. *)
Lemma empty_data_line_fails_witness : parse_power C10_payload = ParseError C10_payload.
Proof.
  apply empty_data_line_fails. vm_compute. left. reflexivity.
Defined.

(* ================================================================== *)
(** * Further properties of [monitor.py] *)

(** ** [response.split("\n")] *)

(** X1.  Splitting on newlines loses nothing: joining the lines with
    newlines gives back the response, no line contains a newline, and there
    is one line more than there are newlines. *)
Theorem split_lf_join (s : text) :
  join_lf (split_lf s) = s /\ Forall (fun l => ~ In LF l) (split_lf s) /\
  length (split_lf s) = S (count_occ ascii_dec s LF).
Proof.
  induction s as [|c s [IHj [IHf IHl]]]; [repeat split; repeat constructor; simpl; tauto|].
  cbn [split_lf count_occ]. cbv zeta.
  destruct (split_lf s) as [|l r] eqn:Hs; [discriminate|].
  destruct (Ascii.eqb c LF) eqn:Hc.
  - apply Ascii.eqb_eq in Hc. subst c.
    destruct (ascii_dec LF LF) as [_|n]; [|congruence].
    repeat split.
    + change (join_lf ([] :: l :: r)) with ([] ++ LF :: join_lf (l :: r)).
      rewrite IHj. reflexivity.
    + constructor; [simpl; tauto | exact IHf].
    + cbn [length]. cbn [length] in IHl. lia.
  - apply Ascii.eqb_neq in Hc.
    destruct (ascii_dec c LF) as [e|_]; [congruence|].
    repeat split.
    + destruct r as [|l2 r].
      * cbn [join_lf] in *. rewrite IHj. reflexivity.
      * change (join_lf ((c :: l) :: l2 :: r)) with (c :: (l ++ LF :: join_lf (l2 :: r))).
        change (join_lf (l :: l2 :: r)) with (l ++ LF :: join_lf (l2 :: r)) in IHj.
        rewrite IHj. reflexivity.
    + inversion IHf as [|l' r' Hl Hr]; subst. constructor; [|exact Hr].
      intros [H|H]; [congruence | exact (Hl H)].
    + cbn [length] in *. exact IHl.
Qed.

(** ** [colstart] *)

Lemma findall_aux_long (s acc : text) (b : bool) :
  (b = true -> 2 <= length acc) -> Forall (fun m => 2 <= length m) (findall_aux s acc b).
Proof.
  revert acc b. induction s as [|c s IH]; intros acc b Hb; simpl.
  - destruct b; [constructor; [rewrite length_rev; auto|constructor] | constructor].
  - destruct (Ascii.eqb c " "%char).
    + destruct acc as [|a acc]; apply IH; [discriminate|]. intros _. simpl. lia.
    + destruct b.
      * constructor; [rewrite length_rev; auto|]. apply IH. discriminate.
      * apply IH. discriminate.
Qed.

Lemma findall_aux_total (s acc : text) (b : bool) :
  list_sum (map (@length ascii) (findall_aux s acc b)) <= length s + length acc.
Proof.
  revert acc b. induction s as [|c s IH]; intros acc b; simpl.
  - destruct b; simpl; [rewrite length_rev|]; lia.
  - destruct (Ascii.eqb c " "%char).
    + destruct acc as [|a acc].
      * specialize (IH [] false). simpl in IH. lia.
      * specialize (IH (c :: a :: acc) true). simpl in *. lia.
    + destruct b; simpl.
      * specialize (IH [c] false). simpl in IH. rewrite length_rev. lia.
      * specialize (IH (c :: acc) false). simpl in IH. lia.
Qed.

Lemma fold_colstart_psums (ms : list text) (pre : list nat) (x : nat) :
  fold_left (fun cs m => cs ++ [last cs 0 + length m]) ms (pre ++ [x]) = pre ++ psums x ms.
Proof.
  revert pre x. induction ms as [|m ms IH]; intros pre x; simpl; [reflexivity|].
  rewrite last_last. rewrite (IH (pre ++ [x])), <- app_assoc. reflexivity.
Qed.

Lemma colstart_of_psums (header : text) :
  colstart_of header = psums 0 (findall_cols (rstrip_str header)).
Proof. unfold colstart_of. apply (fold_colstart_psums _ []). Qed.

Lemma psums_hd (x : nat) (ms : list text) : hd_error (psums x ms) = Some x.
Proof. destruct ms; reflexivity. Qed.

Lemma psums_length (x : nat) (ms : list text) : length (psums x ms) = S (length ms).
Proof. revert x. induction ms; intros; simpl; auto. Qed.

Lemma psums_last (x : nat) (ms : list text) :
  last (psums x ms) 0 = x + list_sum (map (@length ascii) ms).
Proof.
  revert x. induction ms as [|m ms IH]; intros x; [simpl; lia|].
  change (psums x (m :: ms)) with (x :: psums (x + length m) ms).
  destruct ms as [|m' ms']; [simpl; lia|].
  change (last (x :: psums (x + length m) (m' :: ms')) 0)
    with (last (psums (x + length m) (m' :: ms')) 0).
  rewrite IH. simpl. lia.
Qed.

Lemma psums_steps (x : nat) (ms : list text) :
  Forall (fun m => 2 <= length m) ms ->
  forall i, S i < length (psums x ms) -> nth i (psums x ms) 0 + 2 <= nth (S i) (psums x ms) 0.
Proof.
  revert x. induction ms as [|m ms IH]; intros x Hms i Hi; simpl in Hi; [lia|].
  inversion Hms as [|m' ms' Hm Hms']; subst.
  destruct i as [|i].
  - change (x + 2 <= nth 0 (psums (x + length m) ms) 0).
    destruct ms; simpl; lia.
  - change (nth i (psums (x + length m) ms) 0 + 2 <= nth (S i) (psums (x + length m) ms) 0).
    apply IH; [exact Hms'|lia].
Qed.

(** X2.  The column offsets computed from the header start at 0, each is at
    least two more than the one before (a column match is a non-space run
    followed by at least one space), and the last one lies within the
    right-stripped header line. *)
Theorem colstart_of_offsets (header : text) :
  let cs := colstart_of header in
  hd_error cs = Some 0 /\
  (forall i, S i < length cs -> nth i cs 0 + 2 <= nth (S i) cs 0) /\
  last cs 0 <= length (rstrip_str header).
Proof.
  cbv zeta. rewrite colstart_of_psums. repeat split.
  - apply psums_hd.
  - apply psums_steps. apply findall_aux_long. discriminate.
  - rewrite psums_last. pose proof (findall_aux_total (rstrip_str header) [] false).
    unfold findall_cols. simpl in *. lia.
Qed.

(** ** [getcell] *)

Lemma lstrip_idem sp (s : list ascii) : lstrip_with sp (lstrip_with sp s) = lstrip_with sp s.
Proof. induction s as [|c s IH]; simpl; [reflexivity|]. destruct (sp c) eqn:E; [exact IH|simpl; rewrite E; reflexivity]. Qed.

Lemma lstrip_split sp (s : list ascii) : exists p, s = p ++ lstrip_with sp s.
Proof.
  induction s as [|c s [p IH]]; simpl; [exists []; reflexivity|].
  destruct (sp c); [exists (c :: p); simpl; f_equal; exact IH | exists []; reflexivity].
Qed.

Lemma lstrip_head sp (s : list ascii) :
  match lstrip_with sp s with [] => True | c :: _ => sp c = false end.
Proof. induction s as [|c s IH]; simpl; [exact I|]. destruct (sp c) eqn:E; [exact IH|exact E]. Qed.

Lemma rstrip_idem sp (s : list ascii) : rstrip_with sp (rstrip_with sp s) = rstrip_with sp s.
Proof. unfold rstrip_with. rewrite rev_involutive, lstrip_idem. reflexivity. Qed.

Lemma rstrip_prefix sp (s : list ascii) : exists t, s = rstrip_with sp s ++ t.
Proof.
  destruct (lstrip_split sp (rev s)) as [p Hp]. exists (rev p). unfold rstrip_with.
  rewrite <- rev_app_distr, <- Hp, rev_involutive. reflexivity.
Qed.

Lemma strip_idem (s : text) : strip (strip s) = strip s.
Proof.
  unfold strip. set (x := lstrip_with is_str_space s).
  assert (Hx := lstrip_head is_str_space s). fold x in Hx.
  destruct (rstrip_prefix is_str_space x) as [t Ht].
  assert (E : lstrip_with is_str_space (rstrip_with is_str_space x) = rstrip_with is_str_space x).
  { destruct (rstrip_with is_str_space x) as [|c u] eqn:Hr; [reflexivity|].
    rewrite Ht in Hx. simpl in Hx. simpl. rewrite Hx. reflexivity. }
  rewrite E. apply rstrip_idem.
Qed.

Lemma py_index_some (s : text) (j : Z) :
  (0 <= j < Z.of_nat (length s))%Z -> exists ch, py_index s j = Some ch.
Proof.
  intros Hj. unfold py_index.
  replace (j <? 0)%Z with false by (symmetry; apply Z.ltb_ge; lia).
  replace ((j <? 0)%Z || (Z.of_nat (length s) <=? j)%Z) with false
    by (symmetry; apply orb_false_iff; split; [apply Z.ltb_ge | apply Z.leb_gt]; lia).
  destruct (nth_error s (Z.to_nat j)) as [ch|] eqn:E; [eauto|].
  apply nth_error_None in E. lia.
Qed.

Lemma getcell_some (cs : list nat) (line : text) (i : nat) :
  line <> [] -> i < length cs -> (S i < length cs -> 1 <= nth (S i) cs 0) ->
  exists raw, getcell cs line i = Some (strip raw).
Proof.
  intros Hl Hi Hnext. unfold getcell.
  assert (Hn : (1 <= Z.of_nat (length line))%Z) by (destruct line; [congruence|simpl; lia]).
  destruct (nth_error cs i) as [c|] eqn:Hc; [|apply nth_error_None in Hc; lia].
  set (n := Z.of_nat (length line)) in *.
  assert (Hnx : exists nx, (1 <= nx)%Z /\
         (if S i <? length cs then match nth_error cs (S i) with
            Some c' => Some (Z.of_nat c') | None => None end else Some n) = Some nx).
  { destruct (S i <? length cs) eqn:Es.
    - apply Nat.ltb_lt in Es. destruct (nth_error cs (S i)) as [c'|] eqn:Hc'.
      + exists (Z.of_nat c'). apply nth_error_nth with (d := 0) in Hc'.
        specialize (Hnext Es). split; [lia | reflexivity].
      + apply nth_error_None in Hc'. lia.
    - exists n. split; [lia | reflexivity]. }
  destruct Hnx as [nx [Hnx1 Hnx]]. rewrite Hnx.
  destruct (py_index_some line (Z.min n nx - 1)) as [ch Hch]; [lia|]. rewrite Hch.
  destruct (Z.min n (Z.of_nat c) =? 0)%Z eqn:E0; [eauto|].
  destruct (py_index_some line (Z.min n (Z.of_nat c) - 1)) as [ch0 Hch0];
    [apply Z.eqb_neq in E0; lia|]. rewrite Hch0. eauto.
Qed.

Lemma colstart_of_lower (header : text) (i : nat) :
  i < length (colstart_of header) -> 2 * i <= nth i (colstart_of header) 0.
Proof.
  rewrite colstart_of_psums.
  assert (Hs := psums_steps 0 (findall_cols (rstrip_str header))
                  (findall_aux_long (rstrip_str header) [] false ltac:(discriminate))).
  induction i as [|i IH]; intros Hi; [lia|].
  specialize (Hs i Hi). specialize (IH ltac:(lia)). lia.
Qed.

(** X3.  A cell is extracted from every non-empty line, and only the empty
    line makes [getcell] raise (an [IndexError] on [line[-1]]); the cell
    has no surrounding whitespace. *)
Theorem getcell_fails_iff_empty (header line : text) (i : nat) :
  i < length (colstart_of header) ->
  (getcell (colstart_of header) line i = None <-> line = []) /\
  (forall cell, getcell (colstart_of header) line i = Some cell -> strip cell = cell).
Proof.
  intros Hi.
  destruct line as [|ch line]; [rewrite getcell_nil; split; [tauto | discriminate]|].
  destruct (getcell_some (colstart_of header) (ch :: line) i) as [raw Hraw];
    [discriminate | exact Hi | intros Hs; pose proof (colstart_of_lower header (S i) Hs); lia|].
  rewrite Hraw. split; [split; discriminate|].
  intros cell Hc. injection Hc as <-. apply strip_idem.
Qed.

Lemma getcell_fails_iff_empty_witness :
  0 < length (colstart_of (str "Volt  Curr")) /\
  getcell (colstart_of (str "Volt  Curr")) (str "4") 0 <> None.
Proof.
  split; [vm_compute; lia|].
  intros H. apply (getcell_fails_iff_empty (str "Volt  Curr") (str "4") 0) in H;
    [discriminate | vm_compute; lia].
Defined.

(** ** When the parser of [get_power] succeeds *)

Lemma map_opt_length {A B} (f : A -> option B) xs ys :
  map_opt f xs = Some ys -> length ys = length xs.
Proof.
  revert ys. induction xs as [|x xs IH]; intros ys H; simpl in H.
  - injection H as <-. reflexivity.
  - destruct (f x); [|discriminate]. destruct (map_opt f xs) as [ys'|] eqn:E; [|discriminate].
    injection H as <-. simpl. rewrite (IH ys' eq_refl). reflexivity.
Qed.

Lemma map_opt_some {A B} (f : A -> option B) xs :
  (forall x, In x xs -> f x <> None) -> exists ys, map_opt f xs = Some ys.
Proof.
  induction xs as [|x xs IH]; intros H; simpl; [eauto|].
  destruct (f x) as [y|] eqn:Ex; [|exfalso; apply (H x); [left; reflexivity | exact Ex]].
  destruct IH as [ys Hys]; [intros z Hz; apply H; right; exact Hz | rewrite Hys; eauto].
Qed.

Lemma cells_some (header line : text) :
  line <> [] ->
  exists vals, map_opt (getcell (colstart_of header) line) (seq 0 (length (colstart_of header)))
               = Some vals.
Proof.
  intros Hl. apply map_opt_some. intros i Hi. apply in_seq in Hi.
  destruct line as [|ch line]; [congruence|].
  destruct (getcell_some (colstart_of header) (ch :: line) i) as [raw ->];
    [discriminate | lia | intros Hs; pose proof (colstart_of_lower header (S i) Hs); lia
    | discriminate].
Qed.

Lemma map_fst_combine {A B} (xs : list A) (ys : list B) :
  length xs = length ys -> map fst (combine xs ys) = xs.
Proof.
  revert ys. induction xs as [|x xs IH]; intros [|y ys] H; simpl in *; try congruence.
  rewrite IH by congruence. reflexivity.
Qed.

Lemma dict_fold_defined kvs (d : item) k :
  dict_get (fold_left (fun d kv => dict_set d (fst kv) (snd kv)) kvs d) k <> None
  <-> dict_get d k <> None \/ In k (map fst kvs).
Proof.
  revert d. induction kvs as [|[k1 v1] kvs IH]; intros d; simpl; [tauto|].
  rewrite IH, dict_get_set. destruct (text_eqb k k1) eqn:E.
  - apply text_eqb_spec in E. subst k1. split; [auto | intros _; left; discriminate].
  - assert (k1 <> k) by (intros ->; rewrite text_eqb_refl in E; discriminate). tauto.
Qed.

Lemma dict_of_zip_defined ks vs k :
  length ks = length vs -> dict_get (dict_of_zip ks vs) k <> None <-> In k ks.
Proof.
  intros Hl. unfold dict_of_zip. rewrite dict_fold_defined, map_fst_combine by exact Hl.
  simpl. tauto.
Qed.

Lemma row_item_nonempty (header line : text) hs :
  line <> [] -> length hs = length (colstart_of header) ->
  exists vals, row_item (colstart_of header) hs line = Some (dict_of_zip hs (map VStr vals))
               /\ length vals = length hs.
Proof.
  intros Hl Hhs. destruct (cells_some header line Hl) as [vals Hv].
  exists vals. unfold row_item. rewrite Hv. split; [reflexivity|].
  apply map_opt_length in Hv. rewrite length_seq in Hv. lia.
Qed.

Lemma process_rows_defined (header : text) hs rows :
  Forall (fun l => l <> []) rows -> length hs = length (colstart_of header) ->
  process_rows (colstart_of header) hs rows <> None <-> rows = [] \/ In BASE_ST hs.
Proof.
  intros Hrows Hhs. induction Hrows as [|line rows Hl Hrows IH]; simpl.
  - split; [auto | discriminate].
  - destruct (row_item_nonempty header line hs Hl Hhs) as [vals [-> Hlen]].
    pose proof (dict_of_zip_defined hs (map VStr vals) BASE_ST) as Hd.
    rewrite length_map in Hd. specialize (Hd (eq_sym Hlen)).
    destruct (dict_get (dict_of_zip hs (map VStr vals)) BASE_ST) as [st|] eqn:Est.
    + assert (Hin : In BASE_ST hs) by (apply Hd; discriminate).
      assert (Hrest : process_rows (colstart_of header) hs rows <> None) by (apply IH; auto).
      split; [intros _; auto|intros _].
      destruct (value_eqb st (VStr ABSENT)); [exact Hrest|].
      destruct (process_rows (colstart_of header) hs rows); [discriminate | exact Hrest].
    + split; [intros H; exfalso; exact (H eq_refl)|].
      intros [H|H]; [discriminate | exfalso; apply Hd in H; exact (H eq_refl)].
Qed.

Lemma split_lf_nonempty (s : text) : split_lf s <> [].
Proof.
  destruct s as [|c s]; simpl; [discriminate|].
  destruct (Ascii.eqb c LF); [discriminate | destruct (split_lf s); discriminate].
Qed.

(** X4.  When no line of the response is empty, the header row always
    yields its column names, and the parser fails exactly when there is at
    least one data row and no column is named [Base.St] (the [KeyError] of
    [item["Base.St"]]). *)
Theorem parse_power_succeeds_iff (response : text) :
  Forall (fun l => l <> []) (split_lf response) ->
  let header := hd [] (split_lf response) in
  let colstart := colstart_of header in
  exists headers,
    map_opt (getcell colstart header) (seq 0 (length colstart)) = Some headers /\
    ((exists items, parse_power response = Parsed items) <->
     tl (split_lf response) = [] \/ In BASE_ST headers).
Proof.
  intros Hall. cbv zeta. unfold parse_power. revert Hall.
  pose proof (split_lf_nonempty response) as Hne.
  destruct (split_lf response) as [|header rows]; [congruence|].
  intros Hall. inversion Hall as [|h r Hh Hrows]; subst. cbn [hd hd_error tl].
  destruct (cells_some header header Hh) as [headers Hhs]. exists headers.
  split; [exact Hhs|]. rewrite Hhs.
  assert (Hlen : length headers = length (colstart_of header))
    by (apply map_opt_length in Hhs; rewrite length_seq in Hhs; exact Hhs).
  rewrite <- (process_rows_defined header headers rows Hrows Hlen).
  destruct (process_rows (colstart_of header) headers rows).
  - split; [discriminate | eauto].
  - split; [intros [items H]; discriminate | intros H; exfalso; exact (H eq_refl)].
Qed.

Lemma parse_power_succeeds_iff_witness :
  Forall (fun l => l <> []) (split_lf (str "Power  Volt" ++ LF :: str "1      2")) /\
  ~ exists items, parse_power (str "Power  Volt" ++ LF :: str "1      2") = Parsed items.
Proof.
  assert (Hall : Forall (fun l => l <> []) (split_lf (str "Power  Volt" ++ LF :: str "1      2")))
    by (vm_compute; repeat constructor; discriminate).
  split; [exact Hall|].
  destruct (parse_power_succeeds_iff _ Hall) as [headers [Hh Hiff]].
  vm_compute in Hh. injection Hh as <-. rewrite Hiff.
  intros [H|H]; [discriminate | vm_compute in H; destruct H as [H|[H|[]]]; discriminate].
Defined.

(** ** The keys of the parsed records *)

Lemma dict_get_in (d : item) k : dict_get d k <> None <-> In k (map fst d).
Proof.
  induction d as [|[k1 v1] d IH]; simpl; [tauto|].
  destruct (text_eqb k k1) eqn:E.
  - apply text_eqb_spec in E. subst. split; [auto | discriminate].
  - assert (k1 <> k) by (intros ->; rewrite text_eqb_refl in E; discriminate). rewrite IH. tauto.
Qed.

Lemma dict_set_keys (d d' : item) k v v' :
  map fst d = map fst d' -> map fst (dict_set d k v) = map fst (dict_set d' k v').
Proof.
  revert d'. induction d as [|[k1 v1] d IH]; intros [|[k2 v2] d'] H; simpl in *; try discriminate.
  - reflexivity.
  - injection H as <- H. destruct (text_eqb k k1); simpl; [congruence|].
    f_equal. apply IH. exact H.
Qed.

Lemma dict_fold_keys kvs kvs' (d d' : item) :
  map fst kvs = map fst kvs' -> map fst d = map fst d' ->
  map fst (fold_left (fun d kv => dict_set d (fst kv) (snd kv)) kvs d) =
  map fst (fold_left (fun d kv => dict_set d (fst kv) (snd kv)) kvs' d').
Proof.
  revert kvs' d d'. induction kvs as [|[k v] kvs IH]; intros [|[k' v'] kvs'] d d' Hk Hd;
    simpl in *; try discriminate; [exact Hd|].
  injection Hk as <- Hk. apply IH; [exact Hk|]. apply dict_set_keys. exact Hd.
Qed.

Lemma dict_set_nodup (d : item) k v : NoDup (map fst d) -> NoDup (map fst (dict_set d k v)).
Proof.
  induction d as [|[k1 v1] d IH]; intros Hnd; simpl; [repeat constructor; simpl; tauto|].
  inversion Hnd as [|x l Hx Hl]; subst.
  destruct (text_eqb k k1) eqn:E; simpl; [exact Hnd|].
  constructor; [|apply IH; exact Hl].
  rewrite <- dict_get_in, dict_get_set.
  destruct (text_eqb k1 k) eqn:E'.
  - apply text_eqb_spec in E'. subst. rewrite text_eqb_refl in E. discriminate.
  - rewrite dict_get_in. exact Hx.
Qed.

Lemma dict_fold_nodup kvs (d : item) :
  NoDup (map fst d) ->
  NoDup (map fst (fold_left (fun d kv => dict_set d (fst kv) (snd kv)) kvs d)).
Proof.
  revert d. induction kvs as [|kv kvs IH]; intros d Hd; simpl; [exact Hd|].
  apply IH. apply dict_set_nodup. exact Hd.
Qed.

Lemma dict_set_existing (d : item) k v :
  dict_get d k <> None -> map fst (dict_set d k v) = map fst d.
Proof.
  induction d as [|[k1 v1] d IH]; intros H; simpl in *; [congruence|].
  destruct (text_eqb k k1); simpl; [reflexivity|]. f_equal. apply IH. exact H.
Qed.

Lemma coerce_int_keys it k : map fst (coerce_int it k) = map fst it.
Proof.
  unfold coerce_int. destruct (dict_get it k) as [[s|z]|] eqn:E; [destruct (py_int s)| |];
    try reflexivity; apply dict_set_existing; congruence.
Qed.

Lemma coerce_item_keys it : map fst (coerce_item it) = map fst it.
Proof.
  assert (Hf : forall keys it, map fst (fold_left coerce_int keys it) = map fst it).
  { induction keys as [|k keys IH]; intros it'; simpl; [reflexivity|].
    rewrite IH. apply coerce_int_keys. }
  unfold coerce_item, coerce_coulomb.
  destruct (dict_get (fold_left coerce_int NUMERIC_KEYS it) COULOMB) as [[s|z]|] eqn:E;
    [destruct (py_int (py_slice s 0 (-1)))| |]; rewrite ?dict_set_existing by congruence;
    apply Hf.
Qed.

Lemma row_item_shape cs hs line it :
  row_item cs hs line = Some it ->
  exists vals, it = dict_of_zip hs (map VStr vals) /\ length vals = length cs.
Proof.
  unfold row_item. destruct (map_opt _ _) as [vals|] eqn:E; [|discriminate].
  intros H. injection H as <-. exists vals. split; [reflexivity|].
  apply map_opt_length in E. rewrite length_seq in E. exact E.
Qed.

Lemma dict_of_zip_keys hs vs vs' :
  length vs = length hs -> length vs' = length hs ->
  map fst (dict_of_zip hs vs) = map fst (dict_of_zip hs vs').
Proof.
  intros H1 H2. unfold dict_of_zip. apply dict_fold_keys; [|reflexivity].
  rewrite !map_fst_combine by congruence. reflexivity.
Qed.

(** X5.  Every parsed record has the same keys in the same order; they are
    the header names, each once (a repeated header name gives one key). *)
Theorem parsed_records_keys (response : text) items :
  parse_power response = Parsed items ->
  let header := hd [] (split_lf response) in
  let colstart := colstart_of header in
  exists headers,
    map_opt (getcell colstart header) (seq 0 (length colstart)) = Some headers /\
    Forall (fun it => NoDup (map fst it) /\ forall k, In k (map fst it) <-> In k headers) items /\
    (forall it1 it2, In it1 items -> In it2 items -> map fst it1 = map fst it2).
Proof.
  unfold parse_power. cbv zeta.
  destruct (split_lf response) as [|header rows]; [discriminate|]. cbn [hd hd_error tl].
  destruct (map_opt (getcell (colstart_of header) header) _) as [headers|] eqn:Hh;
    [|discriminate].
  destruct (process_rows (colstart_of header) headers rows) as [items'|] eqn:Hp;
    [|discriminate].
  intros H. injection H as <-. exists headers. split; [reflexivity|].
  assert (Hlen : length headers = length (colstart_of header))
    by (apply map_opt_length in Hh; rewrite length_seq in Hh; exact Hh).
  destruct (process_rows_spec _ _ _ _ Hp) as [raws [_ [Hraws ->]]].
  assert (Hshape : forall it, In it (map coerce_item (filter (fun it => negb (is_absent it)) raws)) ->
            exists vals, map fst it = map fst (dict_of_zip headers (map VStr vals))
                         /\ length vals = length headers).
  { intros it Hin. apply in_map_iff in Hin as [r [<- Hin]].
    apply filter_In in Hin as [Hin _].
    rewrite Forall_forall in Hraws. destruct (Hraws r Hin) as [line [Hr _]].
    destruct (row_item_shape _ _ _ _ Hr) as [vals [-> Hv]].
    exists vals. split; [apply coerce_item_keys | congruence]. }
  split.
  - apply Forall_forall. intros it Hin. destruct (Hshape it Hin) as [vals [-> Hv]].
    split; [apply dict_fold_nodup; constructor|].
    intros k. rewrite <- dict_get_in. apply dict_of_zip_defined.
    rewrite length_map. congruence.
  - intros it1 it2 H1 H2.
    destruct (Hshape it1 H1) as [v1 [-> Hv1]]. destruct (Hshape it2 H2) as [v2 [-> Hv2]].
    apply dict_of_zip_keys; rewrite length_map; assumption.
Qed.

Lemma parsed_records_keys_witness :
  exists items, parse_power C2_payload = Parsed items /\ items <> [] /\
  Forall (fun it => NoDup (map fst it)) items.
Proof.
  assert (H : parse_power C2_payload
              = Parsed (match parse_power C2_payload with Parsed i => i | _ => [] end))
    by (vm_compute; reflexivity).
  eexists; split; [exact H|]. split; [vm_compute; discriminate|].
  destruct (parsed_records_keys _ _ H) as [hs [_ [Hf _]]].
  eapply Forall_impl; [|exact Hf]. intros it [Hn _]. exact Hn.
Defined.

(** ** Coercion of the numeric columns *)

Lemma forallb_not_in (k : text) keys :
  ~ In k keys -> forallb (fun k' => negb (text_eqb k k')) keys = true.
Proof.
  induction keys as [|k1 keys IH]; intros H; simpl; [reflexivity|].
  destruct (text_eqb k k1) eqn:E; [apply text_eqb_spec in E; subst; simpl in H; tauto|].
  simpl. apply IH. simpl in H. tauto.
Qed.

Lemma NUMERIC_KEYS_nodup : NoDup NUMERIC_KEYS.
Proof.
  vm_compute. repeat constructor; simpl; intuition discriminate.
Qed.

Lemma coerce_coulomb_other it k :
  text_eqb k COULOMB = false -> dict_get (coerce_coulomb it) k = dict_get it k.
Proof.
  intros Hk. unfold coerce_coulomb.
  destruct (dict_get it COULOMB) as [[s|z]|]; [destruct (py_int (py_slice s 0 (-1)))| |];
    rewrite ?dict_get_set, ?Hk; reflexivity.
Qed.

Lemma coerce_int_same it k s :
  dict_get it k = Some (VStr s) ->
  dict_get (coerce_int it k) k = Some (match py_int s with Some z => VInt z | None => VStr s end).
Proof.
  intros H. unfold coerce_int. rewrite H.
  destruct (py_int s); [rewrite dict_get_set, text_eqb_refl|]; congruence.
Qed.

(** X6.  In every record, a cell of one of the numeric columns ([Power],
    [Volt], [Curr], [Tempr], [Tlow], [Thigh], [Vlow], [Vhigh], [MosTempr])
    becomes [int(cell)] when [int] accepts it and stays the text otherwise. *)
Theorem numeric_keys_coerced (it : item) (k s : text) :
  In k NUMERIC_KEYS -> dict_get it k = Some (VStr s) ->
  dict_get (coerce_item it) k = Some (match py_int s with Some z => VInt z | None => VStr s end).
Proof.
  intros Hk Hs.
  assert (Hc : text_eqb k COULOMB = false).
  { destruct (text_eqb k COULOMB) eqn:E; [|reflexivity]. apply text_eqb_spec in E. subst.
    vm_compute in Hk. exfalso. intuition discriminate. }
  unfold coerce_item. rewrite coerce_coulomb_other by exact Hc.
  destruct (in_split k NUMERIC_KEYS Hk) as [pre [post Hsplit]].
  pose proof NUMERIC_KEYS_nodup as Hnd. rewrite Hsplit in Hnd.
  assert (Hpre : ~ In k pre) by (intros H; apply (NoDup_remove_2 _ _ _ Hnd); apply in_or_app; auto).
  assert (Hpost : ~ In k post) by (intros H; apply (NoDup_remove_2 _ _ _ Hnd); apply in_or_app; auto).
  rewrite Hsplit, fold_left_app. simpl.
  rewrite fold_coerce_int_other by (apply forallb_not_in; exact Hpost).
  apply coerce_int_same. rewrite fold_coerce_int_other by (apply forallb_not_in; exact Hpre).
  exact Hs.
Qed.

Lemma numeric_keys_coerced_witness :
  dict_get (coerce_item [(str "Volt", VStr (str " 49012 "))]) (str "Volt")
  = Some (VInt 49012).
Proof.
  apply (numeric_keys_coerced [(str "Volt", VStr (str " 49012 "))] (str "Volt") (str " 49012 "));
    [vm_compute; tauto | reflexivity].
Defined.

(** ** [dict(zip(headers, values))] *)

Lemma find_app_single {A} (f : A -> bool) l x :
  find f (l ++ [x]) = match find f l with Some y => Some y | None => if f x then Some x else None end.
Proof.
  induction l as [|a l IH]; simpl; [reflexivity|]. destruct (f a); [reflexivity | exact IH].
Qed.

Lemma dict_fold_get_last kvs (d : item) k :
  dict_get (fold_left (fun d kv => dict_set d (fst kv) (snd kv)) kvs d) k =
  match find (fun kv => text_eqb k (fst kv)) (rev kvs) with
  | Some kv => Some (snd kv)
  | None => dict_get d k
  end.
Proof.
  revert d. induction kvs as [|kv kvs IH]; intros d; simpl; [reflexivity|].
  rewrite IH, find_app_single, dict_get_set.
  destruct (find _ (rev kvs)); [reflexivity|]. destruct (text_eqb k (fst kv)); reflexivity.
Qed.

(** X7.  When several columns have the same header name, the record keeps
    the cell of the right-most one; a name with no cell is absent. *)
Theorem dict_of_zip_last_wins (ks : list text) (vs : list value) (k : text) :
  dict_get (dict_of_zip ks vs) k =
  option_map snd (find (fun kv => text_eqb k (fst kv)) (rev (combine ks vs))).
Proof.
  unfold dict_of_zip. rewrite dict_fold_get_last.
  destruct (find _ _); reflexivity.
Qed.

(** ** [int()] on the cells *)







(* ------------------------------------------------------------------ *)
(** ** More about the command engine *)

Lemma skipn_length_app {A} (a b : list A) : skipn (length a) (a ++ b) = b.
Proof. induction a; simpl; auto. Qed.

Lemma skipn_add {A} (n m : nat) (l : list A) : skipn (n + m) l = skipn m (skipn n l).
Proof.
  revert l. induction n as [|n IH]; intros l; [reflexivity|]. destruct l; simpl; [destruct m; reflexivity|].
  apply IH.
Qed.

Section EngineMore.

Variable Dev : Type.
Variable dev_open : Dev -> option Dev.
Variable dev_write : Dev -> bytes -> option Dev.
Variable dev_read : Dev -> read_ev * Dev.
Variable dev_close : Dev -> Dev.
Variable decode : bytes -> option text.

(** X9.  The engine never lets a raw transport error out: every error it
    returns is a [RuntimeError] naming the command ([CommandFailed command]),
    with the failure of the last attempt as its cause. *)
Theorem send_command_errors_wrapped fuel k d command retries checkframe e :
  res (send_command dev_open dev_write dev_read dev_close decode
         fuel k d command retries checkframe) = Err e ->
  exists e', e = CommandFailed command e'.
Proof.
  revert d checkframe. induction retries as [|n IH]; intros d checkframe.
  - cbn [send_command]. unfold command_once, res.
    destruct (attempt _ _ _ _ _ _ _ _ _ _) as [[s|e0|] d1]; simpl; try discriminate.
    intros H. injection H as <-. eauto.
  - cbn [send_command]. unfold res.
    destruct (attempt _ _ _ _ _ _ _ _ _ _) as [[s|e0|] d1]; simpl; try discriminate.
    destruct (command_once _ _ _ _ _ _ _ _ _ _) as [[[s|e1|] d2] tp]; simpl; try discriminate;
      destruct (send_command _ _ _ _ _ _ _ _ _ _ _) as [[r d3] tr] eqn:E; simpl; intros H; subst r;
      apply (IH d2 true); unfold res; rewrite E; reflexivity.
Qed.

(** X10.  On a device where every attempt fails (for example an unreachable
    one), a call with [retries = n] makes [n + 1] attempts of the command (the
    first with the caller's [checkframe], the others framed), each failure
    but the last followed by one recovery probe, [2 n + 1] calls in all, and
    raises [CommandFailed command]. *)
Theorem failing_device_calls fuel k d command n checkframe :
  (forall d' c cf, exists e d'',
     attempt dev_open dev_write dev_read dev_close decode fuel k d' c cf = (Err e, d'')) ->
  (exists e, res (send_command dev_open dev_write dev_read dev_close decode
                    fuel k d command n checkframe) = Err (CommandFailed command e)) /\
  trace (send_command dev_open dev_write dev_read dev_close decode fuel k d command n checkframe)
  = Call command n checkframe :: failing_trace command n /\
  length (trace (send_command dev_open dev_write dev_read dev_close decode
                   fuel k d command n checkframe)) = 2 * n + 1.
Proof.
  intros Hfail.
  assert (Hmain : (exists e, res (send_command dev_open dev_write dev_read dev_close decode
                    fuel k d command n checkframe) = Err (CommandFailed command e)) /\
    trace (send_command dev_open dev_write dev_read dev_close decode fuel k d command n checkframe)
    = Call command n checkframe :: failing_trace command n).
  { revert d checkframe. induction n as [|m IH]; intros d checkframe.
    - cbn [send_command failing_trace]. unfold command_once.
      destruct (Hfail d command checkframe) as [e [d1 ->]]. unfold res, trace. simpl. eauto.
    - cbn [send_command]. destruct (Hfail d command checkframe) as [e [d1 ->]].
      unfold command_once. destruct (Hfail d1 [] false) as [e1 [d2 ->]].
      destruct (IH d2 true) as [[e2 He2] Ht2].
      destruct (send_command _ _ _ _ _ _ _ _ _ _ _) as [[r d3] tr].
      unfold res, trace in *. simpl in *. subst. split; [eauto | reflexivity]. }
  destruct Hmain as [Hres Htr]. split; [exact Hres|]. split; [exact Htr|].
  rewrite Htr. clear. induction n as [|m IH]; simpl in *; lia.
Qed.

(** X11.  What the frame check lets through: when the framed tail of
    [network_command] returns a text, the right-stripped buffer is
    [command + MARK_BEGIN + p + MARK_END] for a [p] that decodes to that
    text, unless the buffer is shorter than the two markers and the command
    together (the markers overlap), in which case the text is the decoding
    of the empty payload. *)
Theorem framed_finish_sound command response t :
  finish decode command true MARK_END response = Ok t ->
  exists p, decode p = Some t /\
    (rstrip response = command ++ MARK_BEGIN ++ p ++ MARK_END \/
     (p = [] /\ length (rstrip response)
                < length command + length MARK_BEGIN + length MARK_END)).
Proof.
  unfold finish. cbv zeta. set (r := rstrip response).
  destruct (startswith r (command ++ MARK_BEGIN)) eqn:H1; [|discriminate].
  destruct (endswith r MARK_END) eqn:H2; [|discriminate]. cbn [andb].
  set (p := slice r (length command + length MARK_BEGIN) (length r - length MARK_END)).
  unfold decode_result. destruct (decode p) as [t'|] eqn:Hp; intros H; [|discriminate].
  injection H as <-. exists p. split; [exact Hp|].
  apply startswith_spec in H1 as [v Hv].
  unfold endswith in H2. apply startswith_spec in H2 as [w Hw].
  assert (Hr : r = rev w ++ MARK_END)
    by (rewrite <- (rev_involutive r), Hw, rev_app_distr, rev_involutive; reflexivity).
  assert (Hl1 : length r = length command + length MARK_BEGIN + length v)
    by (rewrite Hv, !length_app; lia).
  assert (Hl2 : length r = length w + length MARK_END)
    by (rewrite Hr, length_app, length_rev; lia).
  destruct (le_lt_dec (length command + length MARK_BEGIN) (length r - length MARK_END)) as [Hle|Hlt].
  - left. unfold p, slice.
    set (i := length command + length MARK_BEGIN) in *.
    set (j := length r - length MARK_END) in *.
    assert (Hskip_i : skipn i r = v)
      by (unfold i; rewrite Hv, <- length_app; apply skipn_length_app).
    assert (Hskip_j : skipn (j - i) v = MARK_END).
    { rewrite <- Hskip_i, <- skipn_add. replace (i + (j - i)) with (length (rev w)) by
        (rewrite length_rev; lia). rewrite Hr. apply skipn_length_app. }
    rewrite Hskip_i. rewrite Hv at 1. rewrite <- (firstn_skipn (j - i) v) at 1.
    rewrite Hskip_j, <- !app_assoc. reflexivity.
  - right. split; [|lia]. unfold p, slice. replace (_ - _) with 0 by lia. reflexivity.
Qed.

End EngineMore.

Lemma send_command_errors_wrapped_witness :
  exists e', CommandFailed PWR ConnectError = CommandFailed PWR e'.
Proof.
  apply (send_command_errors_wrapped unit refuse_open unit_write empty_read unit_close
           decode_ascii 10 Network tt PWR 2 true).
  vm_compute. reflexivity.
Defined.

Lemma failing_device_calls_witness :
  length (trace (send_command refuse_open unit_write empty_read unit_close decode_ascii
                   10 Network tt PWR 3 false)) = 7.
Proof.
  destruct (failing_device_calls unit refuse_open unit_write empty_read unit_close decode_ascii
              10 Network tt PWR 3 false) as [_ [_ H]].
  - intros d' c cf. exists ConnectError, d'. reflexivity.
  - exact H.
Defined.

Lemma framed_finish_sound_witness :
  exists p, decode_ascii p = Some (str "ok") /\
    (rstrip (PWR ++ MARK_BEGIN ++ str "ok" ++ MARK_END ++ [LF])
       = PWR ++ MARK_BEGIN ++ p ++ MARK_END \/
     (p = [] /\ length (rstrip (PWR ++ MARK_BEGIN ++ str "ok" ++ MARK_END ++ [LF]))
                < length PWR + length MARK_BEGIN + length MARK_END)).
Proof.
  apply (framed_finish_sound decode_ascii PWR). vm_compute. reflexivity.
Defined.

Section ReadLoopAndPower.

Variable Dev : Type.
Variable dev_open : Dev -> option Dev.
Variable dev_write : Dev -> bytes -> option Dev.
Variable dev_read : Dev -> read_ev * Dev.
Variable dev_close : Dev -> Dev.
Variable decode : bytes -> option text.


(** X13.  [get_power] on a device that answers [pwr] with
    [pwr + MARK_BEGIN + payload + MARK_END] (no terminator inside, any cut
    into reads) returns the parse of the decoded payload, over the network
    and over the serial line alike. *)
Theorem get_power_framed fuel network d d0 d1 d2 payload t cs :
  dev_open d = Some d0 ->
  dev_write d0 (PWR ++ [LF]) = Some d1 ->
  delivers dev_read d1 cs d2 ->
  concat cs = PWR ++ MARK_BEGIN ++ payload ++ MARK_END ->
  contains MARK_END (PWR ++ MARK_BEGIN ++ payload) = false ->
  decode payload = Some t ->
  length cs < fuel ->
  get_power dev_open dev_write dev_read dev_close decode fuel network d
  = (Power (parse_power t), dev_close d2).
Proof.
  intros Ho Hw Hdel Hcat Hno Hdec Hf. unfold get_power. cbn [send_command].
  rewrite (attempt_framed Dev dev_open dev_write dev_read dev_close decode fuel
             (if network then Network else Serial) d d0 d1 d2 PWR payload cs Ho Hw Hdel Hcat Hno Hf).
  unfold decode_result. rewrite Hdec. reflexivity.
Qed.

End ReadLoopAndPower.


Lemma get_power_framed_witness :
  get_power script_open script_write script_read script_close decode_ascii 10 true
    [RdData (PWR ++ MARK_BEGIN ++ C8_payload ++ MARK_END)]
  = (Power (parse_power C8_payload), []).
Proof.
  apply (get_power_framed (list read_ev) script_open script_write script_read script_close
           decode_ascii 10 true [RdData (PWR ++ MARK_BEGIN ++ C8_payload ++ MARK_END)]
           [RdData (PWR ++ MARK_BEGIN ++ C8_payload ++ MARK_END)]
           [RdData (PWR ++ MARK_BEGIN ++ C8_payload ++ MARK_END)] [] C8_payload C8_payload
           [PWR ++ MARK_BEGIN ++ C8_payload ++ MARK_END]);
    [reflexivity | reflexivity | | vm_compute; reflexivity | vm_compute; reflexivity
    | vm_compute; reflexivity | simpl; lia].
  econstructor; [reflexivity | discriminate | constructor].
Defined.
